(** * pyFRI: the Python bindings of the FRI client SDK

    A shallow embedding of [src/pyFRI/src/wrapper.cpp]: the array
    accessors bound on [LBRState], the mutators bound on [LBRCommand],
    the [PyLBRClient] trampolines and [PyClientApplication].

    Floating-point values are IEEE 754 numbers in the sense of the
    Standard Library's [SpecFloat]: a C++ [double] is a [spec_float] read
    in the binary64 format, a C++ [float] one read in the binary32 format.
    C++ exceptions are values of [exn]; a call that may throw returns a
    [result]. *)

From Stdlib Require Import ZArith Lia.
From Stdlib Require Import Floats.SpecFloat.
From stdpp Require Import base list strings pretty.

Open Scope Z_scope.

(* ===================================================================== *)
(** * Part I: definitions                                                 *)
(* ===================================================================== *)

(** ** Exceptions *)

Inductive exn : Type :=
| runtime_error (what : string)       (* throw std::runtime_error(what) *)
| pure_virtual_call (name : string)   (* a pure virtual without override *)
| error_already_set (what : string).  (* raised inside a Python override *)

Inductive result (A : Type) : Type :=
| Ok (a : A)
| Throw (e : exn).

Arguments Ok {A} a.
Arguments Throw {A} e.

(** Sequencing: an exception thrown by the first call skips the rest. *)
#[global] Instance result_ret : MRet result := fun A a => Ok a.

#[global] Instance result_bind : MBind result := fun A B k r =>
  match r with
  | Ok a => k a
  | Throw e => Throw e
  end.

Definition is_Ok {A : Type} (r : result A) : Prop :=
  match r with Ok _ => True | Throw _ => False end.

Definition raises {A : Type} (r : result A) : Prop :=
  match r with Ok _ => False | Throw _ => True end.

(** ** Floating-point formats *)

Abbreviation double := spec_float (only parsing).
Abbreviation float := spec_float (only parsing).

(** What a read outside a modelled buffer yields. *)
#[global] Instance spec_float_inhabited : Inhabited spec_float := populate S754_nan.

Module Binary32.
Definition prec : Z := 24.
Definition emax : Z := 128.
(** [x] is a number of the binary32 format. *)
Definition representable (x : spec_float) : bool := valid_binary prec emax x.
End Binary32.

Module Binary64.
Definition prec : Z := 53.
Definition emax : Z := 1024.
Definition representable (x : spec_float) : bool := valid_binary prec emax x.
End Binary64.

(** [(float)x] for [x] a double: the conversion to binary32, rounding to
    nearest with ties to even; zeros, infinities and NaN keep their
    class. *)
Definition cast_float (x : double) : float :=
  match x with
  | S754_finite s m e => binary_round Binary32.prec Binary32.emax s m e
  | _ => x
  end.

(** [x == y] on floating-point numbers: the same number, whatever the
    format it is written in; NaN equals nothing. *)
Definition same_number (x y : spec_float) : bool :=
  match x, y with
  | S754_zero _, S754_zero _ => true
  | S754_infinity s, S754_infinity s' => Bool.eqb s s'
  | S754_finite s m e, S754_finite s' m' e' =>
      Bool.eqb s s'
      && (Zpos m * 2 ^ (e - Z.min e e') =? Zpos m' * 2 ^ (e' - Z.min e e'))
  | _, _ => false
  end.

(** [std::to_string] on an [int]. *)
Definition to_string (n : Z) : string := pretty n.

(** ** The SDK classes the wrapper binds *)

Module FRI.

(** Modelled from the spec: [KUKA::FRI::LBRState::NUMBER_OF_JOINTS], a
    constant of the SDK header [friLBRState.h], which is not part of the
    wrapper's source; section 3 of the specification fixes the joint
    count of the reference manipulator to 7. *)
Definition NUMBER_OF_JOINTS : Z := 7.

(** The values the wrapper exports for [ESessionState]. *)
Inductive ESessionState : Type :=
| IDLE
| MONITORING_WAIT
| MONITORING_READY
| COMMANDING_WAIT
| COMMANDING_ACTIVE.

(** The values the wrapper exports for [EClientCommandMode]
    (FRI_VERSION_MAJOR == 2). *)
Inductive EClientCommandMode : Type :=
| NO_COMMAND_MODE
| WRENCH
| TORQUE
| JOINT_POSITION
| CARTESIAN_POSE.

(** Modelled from the spec: the SDK class [LBRState] (section 3,
    RobotState).  Each array field is the memory found behind the
    [const double*] the SDK accessor of that name returns. *)
Record LBRState : Type := {
  getSessionState : ESessionState;
  getClientCommandMode : EClientCommandMode;
  getMeasuredJointPosition : list double;
  getMeasuredTorque : list double;
  getCommandedTorque : list double;
  getExternalTorque : list double;
  getIpoJointPosition : list double;
  getMeasuredCartesianPose : list double
}.

(** Modelled from the spec: the SDK class [LBRCommand] (section 3,
    RobotCommand): an optional joint-position array, an optional wrench
    of 6 values, an optional torque array and an optional Cartesian
    pose. *)
Record LBRCommand : Type := {
  jointPosition : option (list double);
  wrench : option (list double);
  torque : option (list double);
  cartesianPose : option (list double)
}.

(** The command [py::init<>()] builds: nothing set. *)
Definition empty_command : LBRCommand :=
  {| jointPosition := None; wrench := None; torque := None;
     cartesianPose := None |}.

(** Modelled from the spec: the three SDK mutators take a
    [const double*] and store the joint-count (for the wrench: 6)
    doubles found there. *)
Definition setJointPosition (self : LBRCommand) (values : list double) : LBRCommand :=
  {| jointPosition := Some (take (Z.to_nat NUMBER_OF_JOINTS) values);
     wrench := wrench self;
     torque := torque self;
     cartesianPose := cartesianPose self |}.

Definition setWrench (self : LBRCommand) (values : list double) : LBRCommand :=
  {| jointPosition := jointPosition self;
     wrench := Some (take 6%nat values);
     torque := torque self;
     cartesianPose := cartesianPose self |}.

Definition setTorque (self : LBRCommand) (values : list double) : LBRCommand :=
  {| jointPosition := jointPosition self;
     wrench := wrench self;
     torque := Some (take (Z.to_nat NUMBER_OF_JOINTS) values);
     cartesianPose := cartesianPose self |}.

(** What a lifecycle callback does when it runs: it reads
    [robotState()], writes [robotCommand()] and returns, or throws. *)
Definition callback_body : Type := LBRState -> LBRCommand -> result LBRCommand.

(** The abstract class [LBRClient]: the four virtuals [PyLBRClient]
    overrides. *)
Class LBRClient (C : Type) : Type := {
  onStateChange : C -> ESessionState -> ESessionState -> callback_body;
  monitor : C -> callback_body;
  waitForCommand : C -> callback_body;
  command : C -> callback_body
}.

End FRI.

(** ** The bindings of [wrapper.cpp] *)

Module Wrapper.
Import FRI.

(** A NumPy array as [py::array_t<T>] shows it: its dimensions and the
    elements found at its buffer pointer. *)
Record array_t : Type := {
  shape : list Z;
  buf : list spec_float
}.

Definition ndim (a : array_t) : Z := Z.of_nat (length (shape a)).
Definition PyArray_DIMS (a : array_t) : list Z := shape a.

(** A local C array before its first write: [n] slots whose content is
    never read before it is written. *)
Definition uninitialized (n : Z) : list spec_float :=
  replicate (Z.to_nat n) S754_nan.

(** [memcpy(dst, src, n * sizeof(double))] *)
Definition memcpy (dst src : list double) (n : Z) : list double :=
  take (Z.to_nat n) src ++ drop (Z.to_nat n) dst.

(** [for (int i = 0; i < NUMBER_OF_JOINTS; i++) dataf[i] = (float)data[i];] *)
Definition parse_double_float (data : list double) (dataf : list float) : list float :=
  foldl (fun dataf i => <[Z.to_nat i := cast_float (data !!! Z.to_nat i)]> dataf)
        dataf (seqZ 0 NUMBER_OF_JOINTS).

(** The conversion loop, stopped after [k] rounds. *)
Definition parse_rounds (k : Z) (data dataf : list spec_float) : list spec_float :=
  foldl (fun dataf i => <[Z.to_nat i := cast_float (data !!! Z.to_nat i)]> dataf)
        dataf (seqZ 0 k).

(** [py::array_t<float>({n}, ptr)]: a fresh one-dimensional array with
    the [n] elements found at [ptr]. *)
Definition py_array_1d (n : Z) (ptr : list float) : array_t :=
  {| shape := [n]; buf := take (Z.to_nat n) ptr |}.

(** The body shared by the joint-array accessor lambdas; [ptr] is what
    the SDK accessor returned. *)
Definition joint_array_lambda (ptr : list double) : array_t :=
  let data := uninitialized NUMBER_OF_JOINTS in
  let dataf := uninitialized NUMBER_OF_JOINTS in
  let data := memcpy data ptr NUMBER_OF_JOINTS in
  let dataf := parse_double_float data dataf in
  py_array_1d NUMBER_OF_JOINTS dataf.

Module LBRState.
Definition getMeasuredJointPosition (self : FRI.LBRState) : array_t :=
  joint_array_lambda (FRI.getMeasuredJointPosition self).
Definition getMeasuredTorque (self : FRI.LBRState) : array_t :=
  joint_array_lambda (FRI.getMeasuredTorque self).
Definition getCommandedTorque (self : FRI.LBRState) : array_t :=
  joint_array_lambda (FRI.getCommandedTorque self).
Definition getExternalTorque (self : FRI.LBRState) : array_t :=
  joint_array_lambda (FRI.getExternalTorque self).
Definition getIpoJointPosition (self : FRI.LBRState) : array_t :=
  joint_array_lambda (FRI.getIpoJointPosition self).

(** The accessors bound when [FRI_VERSION_MAJOR == 2]. *)
Definition getMeasuredCartesianPose (self : FRI.LBRState) : array_t :=
  joint_array_lambda (FRI.getMeasuredCartesianPose self).

Definition getMeasuredCartesianPoseAsMatrix (self : FRI.LBRState) : result array_t :=
  Throw (runtime_error
    "getMeasuredCartesianPoseAsMatrix is not yet exposed (use .getMeasuredCartesianPose instead).").
Definition getIpoCartesianPose (self : FRI.LBRState) : result array_t :=
  Throw (runtime_error "getIpoCartesianPose is not yet exposed.").
Definition getIpoCartesianPoseAsMatrix (self : FRI.LBRState) : result array_t :=
  Throw (runtime_error "getIpoCartesianPoseAsMatrix is not yet exposed.").
Definition getIpoRedundancyValue (self : FRI.LBRState) : result double :=
  Throw (runtime_error "getIpoRedundancyValue is not yet exposed.").
End LBRState.

(** The joint-indexed accessors, each with the SDK accessor it reads. *)
Definition joint_accessors
  : list ((FRI.LBRState -> list double) * (FRI.LBRState -> array_t)) :=
  [ (FRI.getMeasuredJointPosition, LBRState.getMeasuredJointPosition);
    (FRI.getMeasuredTorque, LBRState.getMeasuredTorque);
    (FRI.getCommandedTorque, LBRState.getCommandedTorque);
    (FRI.getExternalTorque, LBRState.getExternalTorque);
    (FRI.getIpoJointPosition, LBRState.getIpoJointPosition) ].

(** An array whose buffer holds as many elements as its shape announces. *)
Definition well_formed (a : array_t) : Prop :=
  Z.of_nat (length (buf a)) = foldr Z.mul 1 (shape a).

(** The message the three array mutators build. *)
Definition shape_message : string :=
  "Input array must have shape (" +:+ to_string NUMBER_OF_JOINTS +:+ ",)!".

Module LBRCommand.
Definition setJointPosition (self : FRI.LBRCommand) (values : array_t)
  : result FRI.LBRCommand :=
  if negb (ndim values =? 1)
     || negb (PyArray_DIMS values !!! 0%nat =? NUMBER_OF_JOINTS)
  then Throw (runtime_error shape_message)
  else
    let data := buf values in
    Ok (FRI.setJointPosition self data).

Definition setWrench (self : FRI.LBRCommand) (values : array_t)
  : result FRI.LBRCommand :=
  if negb (ndim values =? 1)
     || negb (PyArray_DIMS values !!! 0%nat =? 6)
  then Throw (runtime_error shape_message)
  else
    let data := buf values in
    Ok (FRI.setWrench self data).

Definition setTorque (self : FRI.LBRCommand) (values : array_t)
  : result FRI.LBRCommand :=
  if negb (ndim values =? 1)
     || negb (PyArray_DIMS values !!! 0%nat =? NUMBER_OF_JOINTS)
  then Throw (runtime_error shape_message)
  else
    let data := buf values in
    Ok (FRI.setTorque self data).

Definition setCartesianPose (self : FRI.LBRCommand) (values : array_t)
  : result FRI.LBRCommand :=
  Throw (runtime_error "setCartesianPose is not yet exposed.").

Definition setCartesianPoseAsMatrix (self : FRI.LBRCommand) (values : array_t)
  : result FRI.LBRCommand :=
  Throw (runtime_error "setCartesianPoseAsMatrix is not yet exposed.").
End LBRCommand.

(** The Python side of an [LBRClient]: for each virtual, the method of
    that name the Python subclass defines, if it defines one. *)
Record PyLBRClient : Type := {
  py_onStateChange : option (ESessionState -> ESessionState -> callback_body);
  py_monitor : option callback_body;
  py_waitForCommand : option callback_body;
  py_command : option callback_body
}.

(** [PYBIND11_OVERRIDE_PURE(void, LBRClient, name, args...)]: call the
    Python override when there is one, fail otherwise; what the override
    raises goes through. *)
Definition PYBIND11_OVERRIDE_PURE (name : string) (override : option callback_body)
  : callback_body :=
  match override with
  | Some f => f
  | None => fun _ _ => Throw (pure_virtual_call name)
  end.

#[global] Instance PyLBRClient_LBRClient : LBRClient PyLBRClient := {|
  onStateChange self oldState newState :=
    PYBIND11_OVERRIDE_PURE "LBRClient::onStateChange"
      ((fun f => f oldState newState) <$> py_onStateChange self);
  monitor self :=
    PYBIND11_OVERRIDE_PURE "LBRClient::monitor" (py_monitor self);
  waitForCommand self :=
    PYBIND11_OVERRIDE_PURE "LBRClient::waitForCommand" (py_waitForCommand self);
  command self :=
    PYBIND11_OVERRIDE_PURE "LBRClient::command" (py_command self)
|}.

End Wrapper.

(** ** The cycle behind [PyClientApplication]

    [PyClientApplication] owns a [KUKA::FRI::ClientApplication] and
    forwards to it.  That class belongs to the SDK, whose sources are not
    part of the wrapper's source: the module below follows the
    specification (sections 4.1, 4.4, 4.5 and 7). *)

Module Core.
Import FRI.

#[global] Instance ESessionState_eq_dec : EqDecision ESessionState :=
  ltac:(solve_decision).

(** Modelled from the spec: the lifecycle callbacks a cycle can select
    (section 4.1); the SDK's dispatch is not under src/. *)
Inductive Callback : Type :=
| Monitor
| WaitForCommand
| Command
| NoCallback.

(** Modelled from the spec: [callbackFor] of section 4.1. *)
Definition callbackFor (state : ESessionState) : Callback :=
  match state with
  | MONITORING_WAIT | MONITORING_READY => Monitor
  | COMMANDING_WAIT => WaitForCommand
  | COMMANDING_ACTIVE => Command
  | IDLE => NoCallback
  end.

Record TransitionResult : Type := {
  changed : bool;
  callback : Callback
}.

(** Modelled from the spec: the SessionStateMachine of section 4.1; it
    holds the current session state, [IDLE] at first. *)
Record SessionStateMachine : Type := { current : ESessionState }.

Definition initial : SessionStateMachine := {| current := IDLE |}.

(** Modelled from the spec: [advance] of section 4.1.  The third
    component lists the [onStateChange(old, new)] notifications the call
    fires. *)
Definition advance (m : SessionStateMachine) (decoded : ESessionState)
  : SessionStateMachine * TransitionResult * list (ESessionState * ESessionState) :=
  if decide (decoded = current m)
  then (m, {| changed := false; callback := callbackFor (current m) |}, [])
  else ({| current := decoded |},
        {| changed := true; callback := callbackFor decoded |},
        [(current m, decoded)]).

(** A run of the machine over a sequence of decoded states: the
    notifications fired and the callbacks selected, both in order. *)
Fixpoint feed (m : SessionStateMachine) (decoded : list ESessionState)
  : list (ESessionState * ESessionState) * list Callback :=
  match decoded with
  | [] => ([], [])
  | s :: rest =>
      let '(m', r, fired) := advance m s in
      let '(events, callbacks) := feed m' rest in
      (fired ++ events, callback r :: callbacks)
  end.

(** The adjacent pairs of a sequence, and those of them whose two
    states differ. *)
Fixpoint adjacent_pairs {A : Type} (l : list A) : list (A * A) :=
  match l with
  | a :: (b :: _) as rest => (a, b) :: adjacent_pairs rest
  | _ => []
  end.

Definition differing_pairs (l : list ESessionState)
  : list (ESessionState * ESessionState) :=
  filter (fun p => p.1 <> p.2) (adjacent_pairs l).

(** Modelled from the spec: the CommandValidator of section 4.4. *)
Inductive ValidationError : Type :=
| ShapeMismatch (expected actual : Z)
| ModeMismatch.

Inductive Validation : Type :=
| Valid
| Invalid (e : ValidationError).

Definition check_length (expected : Z) (a : list double) : Validation :=
  if Z.of_nat (length a) =? expected then Valid
  else Invalid (ShapeMismatch expected (Z.of_nat (length a))).

(** The pose encoding is taken to have the length the wrapper reads for
    a measured pose. *)
Definition validate (cmd : LBRCommand) (mode : EClientCommandMode) : Validation :=
  match mode, jointPosition cmd, wrench cmd, torque cmd, cartesianPose cmd with
  | JOINT_POSITION, Some q, None, None, None => check_length NUMBER_OF_JOINTS q
  | WRENCH, None, Some w, None, None => check_length 6 w
  | TORQUE, None, None, Some t, None => check_length NUMBER_OF_JOINTS t
  | CARTESIAN_POSE, None, None, None, Some p => check_length NUMBER_OF_JOINTS p
  | NO_COMMAND_MODE, None, None, None, None => Valid
  | _, _, _, _, _ => Invalid ModeMismatch
  end.

(** What one receive-and-decode yields (sections 4.2 and 4.3). *)
Inductive Received : Type :=
| Timeout
| Undecodable
| Decoded (state : LBRState).

(** The policy of section 4.4 for a command that fails validation. *)
Inductive Fallback : Type :=
| ResendPrevious
| SafeDefault.

(** Modelled from the spec: what section 7 keeps as the last error of a
    session. *)
Inductive Diagnostic : Type :=
| DecodeFailure
| Rejected (err : ValidationError)
| CallbackThrew (e : exn).

(** Modelled from the spec: the state the CyclicController of
    section 4.5 keeps between cycles, with the anomaly counters and the
    last error of section 7 and the commands transmitted so far. *)
Record ClientApplication (C : Type) : Type := {
  client : C;
  machine : SessionStateMachine;
  previous : LBRCommand;
  policy : Fallback;
  missedCycles : nat;
  decodeErrors : nat;
  decodeErrorThreshold : nat;
  validationErrors : nat;
  lastError : option Diagnostic;
  disconnected : bool;
  transmitted : list LBRCommand
}.

Arguments client {C} _.
Arguments machine {C} _.
Arguments previous {C} _.
Arguments policy {C} _.
Arguments missedCycles {C} _.
Arguments decodeErrors {C} _.
Arguments decodeErrorThreshold {C} _.
Arguments validationErrors {C} _.
Arguments lastError {C} _.
Arguments disconnected {C} _.
Arguments transmitted {C} _.

Section Cycle.
Context {C : Type} `{!LBRClient C}.

Definition new (c : C) (p : Fallback) (threshold : nat) : ClientApplication C :=
  {| client := c; machine := initial; previous := empty_command; policy := p;
     missedCycles := 0; decodeErrors := 0; decodeErrorThreshold := threshold;
     validationErrors := 0; lastError := None;
     disconnected := false; transmitted := [] |}.

Definition missed (app : ClientApplication C) : ClientApplication C :=
  {| client := client app; machine := machine app; previous := previous app;
     policy := policy app;
     missedCycles := S (missedCycles app);
     decodeErrors := decodeErrors app;
     decodeErrorThreshold := decodeErrorThreshold app;
     validationErrors := validationErrors app;
     lastError := lastError app;
     disconnected := disconnected app; transmitted := transmitted app |}.

Definition decode_failed (app : ClientApplication C) : ClientApplication C :=
  {| client := client app; machine := machine app; previous := previous app;
     policy := policy app;
     missedCycles := missedCycles app;
     decodeErrors := S (decodeErrors app);
     decodeErrorThreshold := decodeErrorThreshold app;
     validationErrors := validationErrors app;
     lastError := Some DecodeFailure;
     disconnected := disconnected app; transmitted := transmitted app |}.

Definition hold (app : ClientApplication C) (m : SessionStateMachine)
  : ClientApplication C :=
  {| client := client app; machine := m; previous := previous app;
     policy := policy app;
     missedCycles := missedCycles app;
     decodeErrors := decodeErrors app;
     decodeErrorThreshold := decodeErrorThreshold app;
     validationErrors := validationErrors app;
     lastError := lastError app;
     disconnected := disconnected app; transmitted := transmitted app |}.

Definition transmit (app : ClientApplication C) (cmd : LBRCommand)
  : ClientApplication C :=
  {| client := client app; machine := machine app; previous := cmd;
     policy := policy app;
     missedCycles := missedCycles app;
     decodeErrors := decodeErrors app;
     decodeErrorThreshold := decodeErrorThreshold app;
     validationErrors := validationErrors app;
     lastError := lastError app;
     disconnected := disconnected app;
     transmitted := transmitted app ++ [cmd] |}.

(** The command sent in place of one that could not be encoded. *)
Definition fallback (app : ClientApplication C) : LBRCommand :=
  match policy app with
  | ResendPrevious => previous app
  | SafeDefault => empty_command
  end.

(** Section 4.4: a failed validation aborts the encode step only; it is
    counted, remembered as the last error, and the fallback is sent. *)
Definition validation_failed (app : ClientApplication C) (why : Diagnostic)
  : ClientApplication C :=
  {| client := client app; machine := machine app; previous := previous app;
     policy := policy app;
     missedCycles := missedCycles app;
     decodeErrors := decodeErrors app;
     decodeErrorThreshold := decodeErrorThreshold app;
     validationErrors := S (validationErrors app);
     lastError := Some why;
     disconnected := disconnected app;
     transmitted := transmitted app ++ [fallback app] |}.

Definition disconnect (app : ClientApplication C) : ClientApplication C :=
  {| client := client app; machine := initial; previous := previous app;
     policy := policy app;
     missedCycles := missedCycles app;
     decodeErrors := decodeErrors app;
     decodeErrorThreshold := decodeErrorThreshold app;
     validationErrors := validationErrors app;
     lastError := lastError app;
     disconnected := true; transmitted := transmitted app |}.

(** Whether the session remains usable: not once [IDLE] persists after
    a disconnect, nor once the decode failures exceed the threshold. *)
Definition usable (app : ClientApplication C) : bool :=
  negb (disconnected app && bool_decide (current (machine app) = IDLE))
  && (decodeErrors app <=? decodeErrorThreshold app)%nat.

(** The selected lifecycle callback, run through the client. *)
Definition invoke (c : C) (cb : Callback) : callback_body :=
  match cb with
  | Monitor => monitor c
  | WaitForCommand => waitForCommand c
  | Command => command c
  | NoCallback => fun _ cmd => Ok cmd
  end.

(** The notifications of one [advance], run through the client. *)
Fixpoint notify (c : C) (fired : list (ESessionState * ESessionState))
  : callback_body :=
  fun st cmd =>
    match fired with
    | [] => Ok cmd
    | (old, new) :: rest =>
        cmd' ← onStateChange c old new st cmd; notify c rest st cmd'
    end.

(** The callbacks of one cycle: the notifications first, then the selected
    lifecycle callback; the first exception ends the run. *)
Definition run_callbacks (c : C) (fired : list (ESessionState * ESessionState))
    (cb : Callback) : callback_body :=
  fun st cmd => cmd' ← notify c fired st cmd; invoke c cb st cmd'.

(** The end of a cycle whose callbacks returned [cmd]: validate, then
    transmit or fall back; with no callback selected the cycle is
    bookkeeping only. *)
Definition conclude (app : ClientApplication C) (cb : Callback) (cmd : LBRCommand)
    (mode : EClientCommandMode) : ClientApplication C :=
  match cb with
  | NoCallback => app
  | _ =>
      match validate cmd mode with
      | Valid => transmit app cmd
      | Invalid err => validation_failed app (Rejected err)
      end
  end.

(** Modelled from the spec: one cycle of section 4.5.  A timeout and a
    decode failure skip the cycle and are counted.  The shape or mode
    error a mutator raises inside a callback is a validation error of
    section 4.4 (section 6), and section 7 lets no anomaly cross the step
    boundary as an exception: what a callback throws is recorded as the
    validation failure of the cycle, like a command the validator
    rejects, and the cycle returns its boolean. *)
Definition step (app : ClientApplication C) (rx : Received)
  : result (bool * ClientApplication C) :=
  let app' :=
    match rx with
    | Timeout => missed app
    | Undecodable => decode_failed app
    | Decoded st =>
        let '(m, r, fired) := advance (machine app) (getSessionState st) in
        let app := hold app m in
        match run_callbacks (client app) fired (callback r) st empty_command with
        | Ok cmd => conclude app (callback r) cmd (getClientCommandMode st)
        | Throw e => validation_failed app (CallbackThrew e)
        end
    end in
  Ok (usable app', app').
End Cycle.
End Core.

(** ** [PyClientApplication] of [wrapper.cpp] *)

Module PyClientApplication.
Import FRI Wrapper.

Record t : Type := { _app : Core.ClientApplication PyLBRClient }.


(** [void disconnect() { _app->disconnect(); }] *)
Definition disconnect (self : t) : t :=
  {| _app := Core.disconnect (_app self) |}.

(** [bool step() { return _app->step(); }]; [rx] is what the connection
    delivers during the call. *)
Definition step (self : t) (rx : Core.Received) : result (bool * t) :=
  '(alive, app) ← Core.step (_app self) rx;
  Ok (alive, {| _app := app |}).
End PyClientApplication.

(** ** The round trip of a commanded value *)

(** [x] is, as a number, a number of the binary32 format. *)
Definition float_valued (x : spec_float) : Prop :=
  exists y : spec_float,
    Binary32.representable y = true /\ same_number x y = true.

Module StateCodec.
Import FRI.

#[global] Instance EClientCommandMode_eq_dec : EqDecision EClientCommandMode :=
  ltac:(solve_decision).

(** Modelled from the spec: a byte of a message of section 4.3, an
    integer from 0 to 255. *)
Abbreviation byte := Z (only parsing).















End StateCodec.

(** ** Sample inputs *)

Module Samples.
Import FRI Wrapper.

Definition seven_zeros : array_t :=
  {| shape := [7]; buf := replicate 7 (S754_zero false) |}.

Definition six_zeros : array_t :=
  {| shape := [6]; buf := replicate 6 (S754_zero false) |}.

(** A pose in the encoding the wrapper reads for a measured pose: the
    translation (0, 0, 0) and the quaternion (1, 0, 0, 0). *)
Definition identity_pose : array_t :=
  {| shape := [7];
     buf := [S754_zero false; S754_zero false; S754_zero false;
             S754_finite false 4503599627370496 (-52);
             S754_zero false; S754_zero false; S754_zero false] |}.

(** The double nearest to 0.1, and the float nearest to it. *)
Definition tenth : double := S754_finite false 7205759403792794 (-56).
Definition tenth_f : float := S754_finite false 13421773 (-27).


(** A state in [COMMANDING_ACTIVE] under the torque mode, reporting a
    commanded torque of 0.1 on every joint. *)
Definition commanding_state : LBRState :=
  {| getSessionState := COMMANDING_ACTIVE;
     getClientCommandMode := TORQUE;
     getMeasuredJointPosition := replicate 7 tenth;
     getMeasuredTorque := replicate 7 (S754_zero false);
     getCommandedTorque := replicate 7 tenth;
     getExternalTorque := replicate 7 (S754_zero false);
     getIpoJointPosition := replicate 7 tenth;
     getMeasuredCartesianPose := replicate 7 (S754_zero false) |}.


(** A Python client whose [command] hands seven torques to [setTorque]. *)
Definition seven_torques_client : PyLBRClient :=
  {| py_onStateChange := Some (fun _ _ _ cmd => Ok cmd);
     py_monitor := Some (fun _ cmd => Ok cmd);
     py_waitForCommand := Some (fun _ cmd => Ok cmd);
     py_command := Some (fun _ cmd => LBRCommand.setTorque cmd seven_zeros) |}.

(** A Python subclass that overrides nothing. *)
Definition bare_client : PyLBRClient :=
  {| py_onStateChange := None; py_monitor := None;
     py_waitForCommand := None; py_command := None |}.
End Samples.

(** ** The other bindings of the module *)

(** Every accessor lambda that copies doubles and casts them: the
    joint-indexed ones and, when [FRI_VERSION_MAJOR == 2], the measured
    Cartesian pose. *)
Definition array_accessors
  : list ((FRI.LBRState -> list double) * (FRI.LBRState -> Wrapper.array_t)) :=
  Wrapper.joint_accessors
  ++ [ (FRI.getMeasuredCartesianPose, Wrapper.LBRState.getMeasuredCartesianPose) ].

(** The accessor lambda with the content of its two local arrays before
    the first write made explicit. *)
Definition joint_array_lambda_from (junk junkf : list spec_float)
    (ptr : list double) : Wrapper.array_t :=
  let data := Wrapper.memcpy junk ptr FRI.NUMBER_OF_JOINTS in
  let dataf := Wrapper.parse_double_float data junkf in
  Wrapper.py_array_1d FRI.NUMBER_OF_JOINTS dataf.

(** The magnitude of a finite number [m * 2^e]: the least [k] with
    [m * 2^e < 2^k]. *)
Definition magnitude (m : positive) (e : Z) : Z := Zpos (digits2_pos m) + e.

(** A string without a dot. *)
Fixpoint dotless (s : string) : bool :=
  match s with
  | EmptyString => true
  | String c rest => negb (String.eqb (String c EmptyString) ".") && dotless rest
  end.

Module Bindings.
Section Version.
(** The two macros of [fri_config.h], which is not part of the wrapper's
    source. *)
Variables FRI_VERSION_MAJOR FRI_VERSION_MINOR : Z.

(** [std::to_string(FRI_VERSION_MAJOR) + "." + std::to_string(FRI_VERSION_MINOR)] *)
Definition FRI_VERSION : string :=
  to_string FRI_VERSION_MAJOR +:+ "." +:+ to_string FRI_VERSION_MINOR.

(** [py::enum_<E>(m, name).value(v1, ...)....export_values()]: the name of
    the enumeration, then the names of its values, all set on the module. *)
Definition enum_ (name : string) (values : list string) : list string :=
  name :: values.

Definition EClientCommandMode_values : list string :=
  [ "NO_COMMAND_MODE"; "WRENCH"; "TORQUE" ]
  ++ (if FRI_VERSION_MAJOR =? 1 then [ "POSITION" ]
      else if FRI_VERSION_MAJOR =? 2 then [ "JOINT_POSITION"; "CARTESIAN_POSE" ]
      else []).

(** The attributes [PYBIND11_MODULE(_pyFRI, m)] sets on the module, in
    order. *)
Definition module_attributes : list string :=
  [ "__doc__"; "FRI_VERSION_MAJOR"; "FRI_VERSION_MINOR"; "FRI_VERSION" ]
  ++ enum_ "ESessionState"
       [ "IDLE"; "MONITORING_WAIT"; "MONITORING_READY"; "COMMANDING_WAIT";
         "COMMANDING_ACTIVE" ]
  ++ enum_ "EConnectionQuality" [ "POOR"; "FAIR"; "GOOD"; "EXCELLENT" ]
  ++ enum_ "ESafetyState"
       [ "NORMAL_OPERATION"; "SAFETY_STOP_LEVEL_0"; "SAFETY_STOP_LEVEL_1";
         "SAFETY_STOP_LEVEL_2" ]
  ++ enum_ "EOperationMode" [ "TEST_MODE_1"; "TEST_MODE_2"; "AUTOMATIC_MODE" ]
  ++ enum_ "EDriveState" [ "OFF"; "TRANSITIONING"; "ACTIVE" ]
  ++ enum_ "EControlMode"
       [ "POSITION_CONTROL_MODE"; "CART_IMP_CONTROL_MODE";
         "JOINT_IMP_CONTROL_MODE"; "NO_CONTROL" ]
  ++ enum_ "EClientCommandMode" EClientCommandMode_values
  ++ enum_ "EOverlayType" [ "NO_OVERLAY"; "JOINT"; "CARTESIAN" ]
  ++ (if FRI_VERSION_MAJOR =? 2
      then enum_ "ERedundancyStrategy" [ "E1"; "NO_STRATEGY" ]
      else [])
  ++ [ "LBRState"; "LBRCommand"; "LBRClient"; "ClientApplication" ].

(** The names [py::class_<LBRState>] binds, in order. *)
Definition LBRState_methods : list string :=
  [ "__init__"; "NUMBER_OF_JOINTS"; "getSampleTime"; "getSessionState";
    "getConnectionQuality"; "getSafetyState"; "getOperationMode";
    "getDriveState"; "getClientCommandMode"; "getOverlayType";
    "getControlMode"; "getTimestampSec"; "getTimestampNanoSec";
    "getMeasuredJointPosition"; "getMeasuredTorque"; "getCommandedTorque";
    "getExternalTorque"; "getIpoJointPosition"; "getTrackingPerformance";
    "getBooleanIOValue"; "getDigitalIOValue"; "getAnalogIOValue" ]
  ++ (if FRI_VERSION_MAJOR =? 1 then [ "getCommandedJointPosition" ]
      else if FRI_VERSION_MAJOR =? 2
      then [ "getMeasuredCartesianPose"; "getMeasuredCartesianPoseAsMatrix";
             "getIpoCartesianPose"; "getIpoCartesianPoseAsMatrix";
             "getMeasuredRedundancyValue"; "getIpoRedundancyValue";
             "getRedundancyStrategy" ]
      else []).

(** The names [py::class_<LBRCommand>] binds; none depends on the
    version. *)
Definition LBRCommand_methods : list string :=
  [ "__init__"; "setJointPosition"; "setWrench"; "setTorque";
    "setCartesianPose"; "setCartesianPoseAsMatrix"; "setBooleanIOValue";
    "setDigitalIOValue"; "setAnalogIOValue" ].

Definition LBRClient_methods : list string :=
  [ "__init__"; "onStateChange"; "monitor"; "waitForCommand"; "command";
    "robotState"; "robotCommand" ].

Definition ClientApplication_methods : list string :=
  [ "__init__"; "connect"; "disconnect"; "step" ].
End Version.
End Bindings.

(** ** More sample inputs *)

Module EdgeSamples.
Import FRI Wrapper.

(** The double 1.0 and the float 1.0. *)
Definition one : double := S754_finite false 4503599627370496 (-52).
Definition one_f : float := S754_finite false 8388608 (-23).

(** The doubles -2^200 and 2^-200. *)
Definition minus_huge : double := S754_finite true 4503599627370496 148.
Definition tiny : double := S754_finite false 4503599627370496 (-252).

(** A state whose measured torques run through the classes of doubles. *)
Definition edge_state : LBRState :=
  {| getSessionState := MONITORING_READY;
     getClientCommandMode := NO_COMMAND_MODE;
     getMeasuredJointPosition := replicate 7 one;
     getMeasuredTorque :=
       [one; minus_huge; tiny; S754_nan; S754_infinity true; S754_zero true;
        Samples.tenth];
     getCommandedTorque := replicate 7 (S754_zero false);
     getExternalTorque := replicate 7 (S754_zero false);
     getIpoJointPosition := replicate 7 one;
     getMeasuredCartesianPose :=
       [one; one; one; one; S754_zero false; S754_zero false; S754_zero false;
        Samples.tenth] |}.
(** The float nearest to 0.1, written as the double of the same value. *)
Definition tenth_widened : double := S754_finite false 7205759511166976 (-56).

(** A state that holds, as doubles, the floats nearest to 0.1. *)
Definition float_state : LBRState :=
  {| getSessionState := IDLE;
     getClientCommandMode := NO_COMMAND_MODE;
     getMeasuredJointPosition := replicate 7 tenth_widened;
     getMeasuredTorque := replicate 7 tenth_widened;
     getCommandedTorque := replicate 7 tenth_widened;
     getExternalTorque := replicate 7 tenth_widened;
     getIpoJointPosition := replicate 7 tenth_widened;
     getMeasuredCartesianPose := replicate 7 tenth_widened |}.
End EdgeSamples.

(* ===================================================================== *)
(** * Part II: properties                                                 *)
(* ===================================================================== *)

Import FRI Wrapper Samples.

(** ** The shape guard of the array mutators *)

Section ShapeGuard.
Variable n : Z.

(** The guard [values.ndim() != 1 || PyArray_DIMS(values.ptr())[0] != n]
    lets exactly the one-dimensional arrays of length [n] through. *)
Lemma shape_guard_false (values : array_t) :
  negb (ndim values =? 1) || negb (PyArray_DIMS values !!! 0%nat =? n) = false
  <-> shape values = [n].
Proof.
  unfold ndim, PyArray_DIMS.
  destruct (shape values) as [|d [|d' rest]]; cbn [length].
  - cbn. split; discriminate.
  - change (Z.of_nat 1 =? 1) with true. cbn [negb orb].
    change ([d] !!! 0%nat) with d.
    destruct (Z.eqb_spec d n) as [->|Hne]; cbn; split; try done.
    intros Heq. inversion Heq. contradiction.
  - replace (Z.of_nat (S (S (length rest))) =? 1) with false by (symmetry; apply Z.eqb_neq; lia).
    cbn. split; discriminate.
Qed.

Lemma shape_guard_true (values : array_t) :
  negb (ndim values =? 1) || negb (PyArray_DIMS values !!! 0%nat =? n) = true
  <-> shape values <> [n].
Proof.
  rewrite <- shape_guard_false.
  destruct (negb (ndim values =? 1) || negb (PyArray_DIMS values !!! 0%nat =? n));
    split; try done; intros H; exfalso; by apply H.
Qed.
End ShapeGuard.

(** Decide the shape guard of a mutator both ways. *)
Ltac guard_cases :=
  let Hs := fresh "Hs" in
  case_decide as Hs;
  [ apply shape_guard_false in Hs | apply shape_guard_true in Hs ];
  rewrite Hs.

Lemma shape_message_7 : shape_message = "Input array must have shape (7,)!".
Proof. reflexivity. Qed.

Lemma setJointPosition_cases (self : LBRCommand) (values : array_t) :
  LBRCommand.setJointPosition self values =
  if decide (shape values = [NUMBER_OF_JOINTS])
  then Ok (FRI.setJointPosition self (buf values))
  else Throw (runtime_error shape_message).
Proof.
  unfold LBRCommand.setJointPosition.
  by guard_cases.
Qed.

Lemma setTorque_cases (self : LBRCommand) (values : array_t) :
  LBRCommand.setTorque self values =
  if decide (shape values = [NUMBER_OF_JOINTS])
  then Ok (FRI.setTorque self (buf values))
  else Throw (runtime_error shape_message).
Proof.
  unfold LBRCommand.setTorque.
  by guard_cases.
Qed.

Lemma setWrench_cases (self : LBRCommand) (values : array_t) :
  LBRCommand.setWrench self values =
  if decide (shape values = [6])
  then Ok (FRI.setWrench self (buf values))
  else Throw (runtime_error shape_message).
Proof.
  unfold LBRCommand.setWrench.
  by guard_cases.
Qed.

(** C2: setJointPosition and setTorque succeed exactly on the
    one-dimensional arrays of length NUMBER_OF_JOINTS = 7.  On any other
    shape they throw the shape error and store nothing; on success the
    command holds the 7 values of the array, neither truncated nor padded.
    A torque array of length 7 is accepted, one of length 6 is rejected. *)
Theorem setJointPosition_setTorque_shape (self : LBRCommand) (values : array_t) :
  NUMBER_OF_JOINTS = 7 /\
  (is_Ok (LBRCommand.setJointPosition self values) <-> shape values = [NUMBER_OF_JOINTS]) /\
  (is_Ok (LBRCommand.setTorque self values) <-> shape values = [NUMBER_OF_JOINTS]) /\
  (shape values <> [NUMBER_OF_JOINTS] <->
     LBRCommand.setJointPosition self values
     = Throw (runtime_error "Input array must have shape (7,)!")) /\
  (shape values <> [NUMBER_OF_JOINTS] <->
     LBRCommand.setTorque self values
     = Throw (runtime_error "Input array must have shape (7,)!")) /\
  (shape values = [NUMBER_OF_JOINTS] -> well_formed values ->
     LBRCommand.setJointPosition self values
     = Ok {| jointPosition := Some (buf values); wrench := wrench self;
             torque := torque self; cartesianPose := cartesianPose self |} /\
     LBRCommand.setTorque self values
     = Ok {| jointPosition := jointPosition self; wrench := wrench self;
             torque := Some (buf values); cartesianPose := cartesianPose self |}) /\
  is_Ok (LBRCommand.setTorque self {| shape := [7]; buf := buf values |}) /\
  raises (LBRCommand.setTorque self {| shape := [6]; buf := buf values |}).
Proof.
  rewrite setJointPosition_cases, !setTorque_cases.
  split_and!; try done.
  - case_decide; cbn; naive_solver.
  - case_decide; cbn; naive_solver.
  - case_decide; cbn; naive_solver.
  - case_decide; cbn; naive_solver.
  - intros Hs Hwf. rewrite !decide_True by done.
    unfold well_formed in Hwf. rewrite Hs in Hwf. cbn in Hwf.
    unfold FRI.setJointPosition, FRI.setTorque.
    rewrite take_ge by (unfold NUMBER_OF_JOINTS in *; lia). done.
Qed.

Lemma setJointPosition_setTorque_shape_witness :
  LBRCommand.setTorque empty_command seven_zeros
  = Ok {| jointPosition := None; wrench := None;
          torque := Some (replicate 7 (S754_zero false)); cartesianPose := None |}.
Proof.
  destruct (setJointPosition_setTorque_shape empty_command seven_zeros)
    as (_ & _ & _ & _ & _ & Hstore & _).
  destruct Hstore as [_ Ht]; [reflexivity | reflexivity | exact Ht].
Defined.

(** C3: setWrench succeeds exactly on the one-dimensional arrays of
    length 6.  Any other shape is rejected with an exception and nothing is
    stored; on success the command holds the 6 values of the array. *)
Theorem setWrench_shape (self : LBRCommand) (values : array_t) :
  (is_Ok (LBRCommand.setWrench self values) <-> shape values = [6]) /\
  (raises (LBRCommand.setWrench self values) <-> shape values <> [6]) /\
  (shape values <> [6] <->
     LBRCommand.setWrench self values = Throw (runtime_error shape_message)) /\
  (shape values = [6] -> well_formed values ->
     LBRCommand.setWrench self values
     = Ok {| jointPosition := jointPosition self; wrench := Some (buf values);
             torque := torque self; cartesianPose := cartesianPose self |}).
Proof.
  rewrite setWrench_cases.
  split_and!.
  - case_decide; cbn; naive_solver.
  - case_decide; cbn; naive_solver.
  - case_decide; cbn; naive_solver.
  - intros Hs Hwf. rewrite decide_True by done.
    unfold well_formed in Hwf. rewrite Hs in Hwf. cbn in Hwf.
    unfold FRI.setWrench. rewrite take_ge by lia. done.
Qed.

Lemma setWrench_shape_witness :
  LBRCommand.setWrench empty_command six_zeros
  = Ok {| jointPosition := None; wrench := Some (replicate 6 (S754_zero false));
          torque := None; cartesianPose := None |}.
Proof.
  destruct (setWrench_shape empty_command six_zeros) as (_ & _ & _ & Hstore).
  apply Hstore; reflexivity.
Defined.

(** C10: whenever setWrench rejects its input, the message of the
    exception announces the shape (NUMBER_OF_JOINTS,), that is (7,), and
    not the length 6 the guard requires. *)
Theorem setWrench_message (self : LBRCommand) (values : array_t) :
  shape values <> [6] ->
  LBRCommand.setWrench self values
  = Throw (runtime_error ("Input array must have shape (" +:+ to_string NUMBER_OF_JOINTS +:+ ",)!"))
  /\ "Input array must have shape (" +:+ to_string NUMBER_OF_JOINTS +:+ ",)!"
     = "Input array must have shape (7,)!"
  /\ "Input array must have shape (" +:+ to_string NUMBER_OF_JOINTS +:+ ",)!"
     <> "Input array must have shape (6,)!".
Proof.
  intros Hs. rewrite setWrench_cases, decide_False by done.
  split_and!; done.
Qed.

Lemma setWrench_message_witness :
  LBRCommand.setWrench empty_command seven_zeros
  = Throw (runtime_error "Input array must have shape (7,)!").
Proof.
  refine (proj1 (setWrench_message empty_command seven_zeros _)).
  discriminate.
Defined.

(** ** The unimplemented bindings *)

(** C7: the state getters tied to the Cartesian overlay are not
    implemented: on every state, getMeasuredCartesianPoseAsMatrix,
    getIpoCartesianPose, getIpoCartesianPoseAsMatrix and
    getIpoRedundancyValue throw a runtime error and return no value. *)
Theorem cartesian_getters_throw (self : LBRState) :
  LBRState.getMeasuredCartesianPoseAsMatrix self
  = Throw (runtime_error
      "getMeasuredCartesianPoseAsMatrix is not yet exposed (use .getMeasuredCartesianPose instead).")
  /\ LBRState.getIpoCartesianPose self
     = Throw (runtime_error "getIpoCartesianPose is not yet exposed.")
  /\ LBRState.getIpoCartesianPoseAsMatrix self
     = Throw (runtime_error "getIpoCartesianPoseAsMatrix is not yet exposed.")
  /\ LBRState.getIpoRedundancyValue self
     = Throw (runtime_error "getIpoRedundancyValue is not yet exposed.")
  /\ raises (LBRState.getMeasuredCartesianPoseAsMatrix self)
  /\ raises (LBRState.getIpoCartesianPose self)
  /\ raises (LBRState.getIpoCartesianPoseAsMatrix self)
  /\ raises (LBRState.getIpoRedundancyValue self).
Proof. by split_and!. Qed.

(** C6 as stated fails: setCartesianPose succeeds on no input at all, and
    on a well-shaped pose it throws an error that is not a shape error. *)
Lemma setCartesianPose_never_succeeds :
  ~ (exists (self : LBRCommand) (values : array_t),
       is_Ok (LBRCommand.setCartesianPose self values))
  /\ well_formed identity_pose
  /\ LBRCommand.setCartesianPose empty_command identity_pose
     = Throw (runtime_error "setCartesianPose is not yet exposed.")
  /\ LBRCommand.setCartesianPose empty_command identity_pose
     <> Throw (runtime_error shape_message).
Proof.
  split_and!; [|done..].
  intros (self & values & H). exact H.
Qed.

(** C6, amended: setCartesianPose and setCartesianPoseAsMatrix are not
    implemented: for every command and every input array, whatever its
    shape, each throws the runtime error saying that it is not yet exposed,
    and no pose is stored. *)
Theorem cartesian_setters_throw (self : LBRCommand) (values : array_t) :
  LBRCommand.setCartesianPose self values
  = Throw (runtime_error "setCartesianPose is not yet exposed.")
  /\ LBRCommand.setCartesianPoseAsMatrix self values
     = Throw (runtime_error "setCartesianPoseAsMatrix is not yet exposed.").
Proof. by split. Qed.

(** ** Rounding to a binary format

    What [binary_round] returns is a number of the target format, and a
    number of the target format is returned as it is. *)

Lemma digits2_pos_bounds (m : positive) :
  2 ^ (Zpos (digits2_pos m) - 1) <= Zpos m < 2 ^ Zpos (digits2_pos m).
Proof.
  induction m as [m IH|m IH|]; cbn [digits2_pos].
  - rewrite Pos2Z.inj_succ.
    replace (Z.succ (Z.pos (digits2_pos m)) - 1) with (Z.succ (Z.pos (digits2_pos m) - 1)) by lia.
    rewrite !Z.pow_succ_r by lia. lia.
  - rewrite Pos2Z.inj_succ.
    replace (Z.succ (Z.pos (digits2_pos m)) - 1) with (Z.succ (Z.pos (digits2_pos m) - 1)) by lia.
    rewrite !Z.pow_succ_r by lia. lia.
  - cbn. lia.
Qed.

Lemma Zdigits2_bounds (m : Z) :
  0 < m -> 2 ^ (Zdigits2 m - 1) <= m < 2 ^ Zdigits2 m.
Proof.
  destruct m as [|p|p]; try lia. intros _. apply digits2_pos_bounds.
Qed.

Lemma Zdigits2_unique (m k : Z) :
  2 ^ (k - 1) <= m < 2 ^ k -> 0 < m -> Zdigits2 m = k.
Proof.
  intros [Hlo Hhi] Hm.
  destruct (Zdigits2_bounds m Hm) as [Hlo' Hhi'].
  assert (Hd : 1 <= Zdigits2 m) by (destruct m; cbn; lia).
  assert (Hk : 1 <= k).
  { destruct (Z.le_gt_cases 1 k) as [|Hlt]; [done|].
    assert (2 ^ k <= 2 ^ 0) by (destruct (Z.le_gt_cases 0 k);
      [apply Z.pow_le_mono_r; lia | rewrite Z.pow_neg_r by lia; cbn; lia]).
    cbn in *. lia. }
  destruct (Z.lt_trichotomy (Zdigits2 m) k) as [Hlt|[Heq|Hgt]]; [|done|].
  - assert (2 ^ Zdigits2 m <= 2 ^ (k - 1)) by (apply Z.pow_le_mono_r; lia). lia.
  - assert (2 ^ k <= 2 ^ (Zdigits2 m - 1)) by (apply Z.pow_le_mono_r; lia). lia.
Qed.

Lemma shr_1_m (mrs : shr_record) :
  0 <= shr_m mrs -> shr_m (shr_1 mrs) = Z.shiftr (shr_m mrs) 1.
Proof.
  destruct mrs as [m r s]. cbn [shr_m]. intros Hm.
  rewrite Z.shiftr_div_pow2 by lia. change (2 ^ 1) with 2.
  destruct m as [|[p|p|]|p]; cbn [shr_1 shr_m]; try lia; try reflexivity.
  - apply Z.div_unique with 1; lia.
  - apply Z.div_unique with 0; lia.
Qed.

Lemma iter_pos_shr_1_m (p : positive) (mrs : shr_record) :
  0 <= shr_m mrs ->
  shr_m (SpecFloat.iter_pos shr_1 p mrs) = Z.shiftr (shr_m mrs) (Zpos p).
Proof.
  revert mrs. induction p as [p IH|p IH|]; intros mrs Hm; cbn [SpecFloat.iter_pos].
  - assert (H1 : 0 <= shr_m (shr_1 mrs))
      by (rewrite shr_1_m by done; apply Z.shiftr_nonneg; done).
    assert (H2 : 0 <= shr_m (SpecFloat.iter_pos shr_1 p (shr_1 mrs)))
      by (rewrite IH by done; apply Z.shiftr_nonneg; done).
    rewrite IH, IH, shr_1_m by done.
    rewrite !Z.shiftr_shiftr by lia. f_equal. lia.
  - assert (H2 : 0 <= shr_m (SpecFloat.iter_pos shr_1 p mrs))
      by (rewrite IH by done; apply Z.shiftr_nonneg; done).
    rewrite IH, IH by done.
    rewrite !Z.shiftr_shiftr by lia. f_equal. lia.
  - by apply shr_1_m.
Qed.

Lemma shr_spec (mrs : shr_record) (e n : Z) :
  0 <= shr_m mrs ->
  shr_m (shr mrs e n).1 = Z.shiftr (shr_m mrs) (Z.max 0 n)
  /\ (shr mrs e n).2 = e + Z.max 0 n.
Proof.
  intros Hm. destruct n as [|p|p]; cbn [shr fst snd].
  - rewrite Z.shiftr_0_r. split; [done|lia].
  - rewrite iter_pos_shr_1_m by done. split; [f_equal|]; lia.
  - replace (Z.max 0 (Z.neg p)) with 0 by lia. rewrite Z.shiftr_0_r. split; [done|lia].
Qed.

Lemma shr_m_of_loc (m : Z) (l : location) : shr_m (shr_record_of_loc m l) = m.
Proof. by destruct l as [|[]]. Qed.

Lemma round_nearest_even_cases (m : Z) (l : location) :
  round_nearest_even m l = m \/ round_nearest_even m l = m + 1.
Proof.
  destruct l as [|[]]; cbn; auto. destruct (Z.even m); auto.
Qed.

Lemma shiftr_bounds (m d n : Z) :
  0 <= n -> n < d -> 2 ^ (d - 1) <= m < 2 ^ d ->
  2 ^ (d - n - 1) <= Z.shiftr m n < 2 ^ (d - n).
Proof.
  intros Hn Hd [Hlo Hhi]. rewrite Z.shiftr_div_pow2 by done.
  assert (Hp : 0 < 2 ^ n) by (apply Z.pow_pos_nonneg; lia).
  split.
  - replace (d - 1) with ((d - n - 1) + n) in Hlo by lia.
    rewrite Z.pow_add_r in Hlo by lia.
    apply Z.div_le_lower_bound; lia.
  - apply Z.div_lt_upper_bound; [done|].
    rewrite <- Z.pow_add_r by lia. replace (n + (d - n)) with d by lia. done.
Qed.

Lemma shiftr_small (m d n : Z) :
  0 <= m < 2 ^ d -> 0 <= d <= n -> Z.shiftr m n = 0.
Proof.
  intros [Hlo Hhi] Hd. rewrite Z.shiftr_div_pow2 by lia.
  apply Z.div_small. split; [done|].
  assert (2 ^ d <= 2 ^ n) by (apply Z.pow_le_mono_r; lia). lia.
Qed.

Section Format.
Variables prec emax : Z.
Hypothesis Hprec : 0 < prec.

#[local] Abbreviation fexp := (SpecFloat.fexp prec emax).
#[local] Abbreviation emin := (SpecFloat.emin prec emax).

Lemma fexp_unfold (x : Z) : fexp x = Z.max (x - prec) emin.
Proof. reflexivity. Qed.

Lemma shl_align_fexp (mx : positive) (ex : Z) :
  let '(mz, ez) := shl_align mx ex (fexp (Zpos (digits2_pos mx) + ex)) in
  ez <= fexp (Zpos (digits2_pos mz) + ez).
Proof.
  unfold shl_align.
  destruct (fexp (Zpos (digits2_pos mx) + ex) - ex) as [|d|d] eqn:Hd; try lia.
  assert (Hdig : Zpos (digits2_pos (Pos.iter xO mx d)) = Zpos (digits2_pos mx) + Zpos d).
  { clear Hd. induction d as [|d IH] using Pos.peano_ind.
    - cbn. lia.
    - rewrite Pos.iter_succ. cbn [digits2_pos]. lia. }
  rewrite Hdig.
  replace (Z.pos (digits2_pos mx) + Z.pos d + fexp (Z.pos (digits2_pos mx) + ex))
    with (Z.pos (digits2_pos mx) + ex) by lia.
  lia.
Qed.

Lemma binary_round_aux_valid (s : bool) (m : positive) (e : Z) (l : location) :
  e <= fexp (Zpos (digits2_pos m) + e) ->
  valid_binary prec emax (binary_round_aux prec emax s (Zpos m) e l) = true.
Proof.
  intros He. unfold binary_round_aux, shr_fexp.
  change (Zdigits2 (Z.pos m)) with (Zpos (digits2_pos m)).
  pose proof (digits2_pos_bounds m) as Hdm.
  remember (Zpos (digits2_pos m)) as dz eqn:Hdz.
  remember (dz + e) as D eqn:HD.
  remember (fexp D - e) as n eqn:Hn'.
  destruct (shr (shr_record_of_loc (Z.pos m) l) e n) as [mrs1 e1] eqn:H1.
  pose proof (shr_spec (shr_record_of_loc (Z.pos m) l) e n) as Hs1.
  rewrite H1, shr_m_of_loc in Hs1. cbn [fst snd] in Hs1.
  destruct Hs1 as [Hm1 He1]; [lia|].
  replace (Z.max 0 n) with n in * by lia.
  assert (HE : e1 = fexp D) by lia. clear He1.
  pose proof (round_nearest_even_cases (shr_m mrs1) (loc_of_shr_record mrs1)) as Hm2.
  generalize dependent (round_nearest_even (shr_m mrs1) (loc_of_shr_record mrs1)).
  intros m2 Hm2.
  assert (Hm1nn : 0 <= shr_m mrs1) by (rewrite Hm1; apply Z.shiftr_nonneg; lia).
  destruct (shr (shr_record_of_loc m2 loc_Exact) e1 (fexp (Zdigits2 m2 + e1) - e1))
    as [mrs2 e2] eqn:H2.
  pose proof (shr_spec (shr_record_of_loc m2 loc_Exact) e1 (fexp (Zdigits2 m2 + e1) - e1)) as Hs2.
  rewrite H2, shr_m_of_loc in Hs2. cbn [fst snd] in Hs2.
  destruct Hs2 as [Hm3 He2]; [lia|].
  destruct (shr_m mrs2) as [|m3|m3] eqn:Hm3'; [done| |done].
  destruct (Z.leb_spec e2 (emax - prec)) as [Hle|Hgt]; [|done].
  cbn [valid_binary]. unfold bounded.
  apply andb_true_intro; split; [|by apply Z.leb_le].
  unfold canonical_mantissa. apply Z.eqb_eq.
  change (Zpos (digits2_pos m3)) with (Zdigits2 (Zpos m3)).
  clear Hle H1 H2 Hm3' mrs2.
  assert (Hm2pos : 0 < m2).
  { destruct (Z.lt_trichotomy m2 0) as [|[->|]]; [lia| |done].
    rewrite Z.shiftr_0_l in Hm3. discriminate Hm3. }
  unfold SpecFloat.fexp in *.
  assert (Hn : 0 <= n) by lia.
  destruct (Z.lt_ge_cases n dz) as [Hlt|Hge].
  - (* the shifted mantissa keeps dz - n digits *)
    pose proof (shiftr_bounds (Zpos m) dz n Hn Hlt Hdm) as Hb.
    rewrite <- Hm1 in Hb.
    destruct (Z.lt_ge_cases m2 (2 ^ (dz - n))) as [Hsame|Hcarry].
    + assert (Hd2 : Zdigits2 m2 = dz - n) by (apply Zdigits2_unique; lia).
      rewrite Hd2 in *.
      replace (Z.max 0 (Z.max (dz - n + e1 - prec) emin - e1)) with 0 in * by lia.
      rewrite Z.shiftr_0_r in Hm3. rewrite Hm3, Hd2. lia.
    + assert (Hm2eq : m2 = 2 ^ (dz - n)) by lia.
      assert (Hd2 : Zdigits2 m2 = dz - n + 1).
      { apply Zdigits2_unique; [|done].
        replace (dz - n + 1 - 1) with (dz - n) by lia.
        rewrite (Z.pow_add_r 2 (dz - n) 1) by lia. lia. }
      rewrite Hd2 in *.
      destruct (Z.le_gt_cases (Z.max (dz - n + 1 + e1 - prec) emin) e1) as [Hc|Hc].
      * replace (Z.max 0 (Z.max (dz - n + 1 + e1 - prec) emin - e1)) with 0 in * by lia.
        rewrite Z.shiftr_0_r in Hm3. rewrite Hm3, Hd2. lia.
      * (* the carry costs one more shift *)
        replace (Z.max 0 (Z.max (dz - n + 1 + e1 - prec) emin - e1)) with 1 in * by lia.
        assert (Hd3 : Zdigits2 (Z.shiftr m2 1) = dz - n).
        { assert (Hm2b : 2 ^ (dz - n + 1 - 1) <= m2 < 2 ^ (dz - n + 1)).
          { replace (dz - n + 1 - 1) with (dz - n) by lia.
            rewrite (Z.pow_add_r 2 (dz - n) 1) by lia. lia. }
          pose proof (shiftr_bounds m2 (dz - n + 1) 1 ltac:(lia) ltac:(lia) Hm2b) as Hb3.
          replace (dz - n + 1 - 1 - 1) with (dz - n - 1) in Hb3 by lia.
          replace (dz - n + 1 - 1) with (dz - n) in Hb3 by lia.
          apply Zdigits2_unique; [done|]. rewrite <- Hm3. done. }
        rewrite Hm3, Hd3. lia.
  - (* everything was shifted out; the mantissa is the rounding bit *)
    assert (Hz : shr_m mrs1 = 0).
    { rewrite Hm1. apply shiftr_small with dz; lia. }
    assert (Hm2eq : m2 = 1) by lia.
    rewrite Hm2eq in *. change (Zdigits2 1) with 1 in *.
    replace (Z.max 0 (Z.max (1 + e1 - prec) emin - e1)) with 0 in * by lia.
    rewrite Z.shiftr_0_r in Hm3. rewrite Hm3. change (Zdigits2 1) with 1. lia.
Qed.

Lemma binary_round_valid (s : bool) (m : positive) (e : Z) :
  valid_binary prec emax (binary_round prec emax s m e) = true.
Proof.
  unfold binary_round.
  pose proof (shl_align_fexp m e) as H.
  destruct (shl_align m e (fexp (Z.pos (digits2_pos m) + e))) as [mz ez].
  by apply binary_round_aux_valid.
Qed.

Lemma binary_round_canonical (s : bool) (m : positive) (e : Z) :
  bounded prec emax m e = true ->
  binary_round prec emax s m e = S754_finite s m e.
Proof.
  unfold bounded, canonical_mantissa. intros H.
  apply andb_prop in H as [Hc Hb]. apply Z.eqb_eq in Hc.
  unfold binary_round, shl_align. rewrite Hc, Z.sub_diag.
  unfold binary_round_aux, shr_fexp.
  change (Zdigits2 (Z.pos m)) with (Zpos (digits2_pos m)).
  rewrite Hc, Z.sub_diag. cbn [shr shr_record_of_loc shr_m loc_of_shr_record round_nearest_even].
  change (Zdigits2 (Z.pos m)) with (Zpos (digits2_pos m)).
  rewrite Hc, Z.sub_diag. cbn [shr shr_m]. by rewrite Hb.
Qed.
End Format.

(** ** The joint-array accessors *)

Lemma length_uninitialized (n : Z) : length (uninitialized n) = Z.to_nat n.
Proof. apply length_replicate. Qed.

Lemma parse_rounds_succ (k : Z) (data dataf : list spec_float) :
  0 <= k ->
  parse_rounds (Z.succ k) data dataf
  = <[Z.to_nat k := cast_float (data !!! Z.to_nat k)]> (parse_rounds k data dataf).
Proof.
  intros Hk. unfold parse_rounds.
  replace (Z.succ k) with (k + 1) by lia.
  rewrite seqZ_app by lia.
  rewrite foldl_app. reflexivity.
Qed.

Lemma length_parse_rounds (k : Z) (data dataf : list spec_float) :
  length (parse_rounds k data dataf) = length dataf.
Proof.
  unfold parse_rounds. generalize (seqZ 0 k) as l. intros l. revert dataf.
  induction l as [|i l IH]; intros dataf; [done|].
  cbn. rewrite IH. apply length_insert.
Qed.

(** Loop invariant: after [k] rounds the slots below [k] hold the casts of
    the corresponding doubles, the others are untouched. *)
Lemma parse_rounds_lookup (k : Z) (data dataf : list spec_float) (i : nat) :
  0 <= k ->
  (Z.to_nat k <= length dataf)%nat ->
  parse_rounds k data dataf !! i
  = if decide (i < Z.to_nat k)%nat then Some (cast_float (data !!! i)) else dataf !! i.
Proof.
  intros Hk. pattern k. revert k Hk.
  apply natlike_ind.
  - intros _. unfold parse_rounds. cbn. by rewrite decide_False by lia.
  - intros k Hk IH Hlen.
    rewrite parse_rounds_succ by done.
    destruct (decide (i = Z.to_nat k)) as [->|Hne].
    + rewrite list_lookup_insert_eq by (rewrite length_parse_rounds; lia).
      by rewrite decide_True by lia.
    + rewrite list_lookup_insert_ne by done.
      rewrite IH by lia.
      destruct (decide (i < Z.to_nat k)%nat), (decide (i < Z.to_nat (Z.succ k))%nat);
        try done; lia.
Qed.

Lemma parse_double_float_rounds (data dataf : list spec_float) :
  parse_double_float data dataf = parse_rounds NUMBER_OF_JOINTS data dataf.
Proof. reflexivity. Qed.

Lemma shape_joint_array_lambda (ptr : list spec_float) :
  shape (joint_array_lambda ptr) = [NUMBER_OF_JOINTS].
Proof. reflexivity. Qed.

Lemma length_joint_array_lambda (ptr : list spec_float) :
  length (buf (joint_array_lambda ptr)) = Z.to_nat NUMBER_OF_JOINTS.
Proof.
  unfold joint_array_lambda, py_array_1d. cbn [buf].
  rewrite length_take, parse_double_float_rounds, length_parse_rounds,
    length_uninitialized.
  lia.
Qed.

(** Every slot of the returned array was written by the loop. *)
Lemma joint_array_lambda_lookup (ptr : list spec_float) (i : nat) :
  (i < Z.to_nat NUMBER_OF_JOINTS)%nat ->
  buf (joint_array_lambda ptr) !! i
  = Some (cast_float (memcpy (uninitialized NUMBER_OF_JOINTS) ptr NUMBER_OF_JOINTS !!! i)).
Proof.
  intros Hi. unfold joint_array_lambda, py_array_1d. cbn [buf].
  rewrite lookup_take_lt by done.
  rewrite parse_double_float_rounds, parse_rounds_lookup.
  - by rewrite decide_True.
  - done.
  - by rewrite length_uninitialized.
Qed.

(** When the SDK pointer has the joint count of doubles behind it, the
    returned array is the element-wise cast of those doubles. *)
Lemma joint_array_lambda_fmap (ptr : list spec_float) :
  (Z.to_nat NUMBER_OF_JOINTS <= length ptr)%nat ->
  buf (joint_array_lambda ptr) = cast_float <$> take (Z.to_nat NUMBER_OF_JOINTS) ptr.
Proof.
  intros Hlen. apply list_eq. intros i.
  destruct (decide (i < Z.to_nat NUMBER_OF_JOINTS)%nat) as [Hi|Hi].
  - rewrite joint_array_lambda_lookup by done.
    rewrite list_lookup_fmap, lookup_take_lt by done.
    unfold memcpy.
    rewrite drop_ge by (rewrite length_uninitialized; lia).
    rewrite app_nil_r.
    rewrite list_lookup_total_alt, lookup_take_lt by done.
    destruct (lookup_lt_is_Some_2 ptr i) as [x Hx]; [lia|].
    by rewrite Hx.
  - rewrite !lookup_ge_None_2; [done| |].
    + rewrite length_fmap, length_take. lia.
    + rewrite length_joint_array_lambda. lia.
Qed.

(** C5: on every state, each joint-indexed accessor (measured joint
    position, measured torque, commanded torque, external torque, ipo
    joint position) returns a one-dimensional array of shape
    (NUMBER_OF_JOINTS,) holding NUMBER_OF_JOINTS = 7 elements. *)
Theorem joint_arrays_length (self : LBRState) :
  NUMBER_OF_JOINTS = 7 /\
  Forall (fun a : array_t =>
            shape a = [NUMBER_OF_JOINTS]
            /\ Z.of_nat (length (buf a)) = NUMBER_OF_JOINTS
            /\ length (buf a) = 7%nat
            /\ well_formed a)
    [LBRState.getMeasuredJointPosition self;
     LBRState.getMeasuredTorque self;
     LBRState.getCommandedTorque self;
     LBRState.getExternalTorque self;
     LBRState.getIpoJointPosition self].
Proof.
  split; [done|].
  repeat apply Forall_cons_2; try apply Forall_nil_2;
    unfold LBRState.getMeasuredJointPosition, LBRState.getMeasuredTorque,
      LBRState.getCommandedTorque, LBRState.getExternalTorque,
      LBRState.getIpoJointPosition, well_formed;
    rewrite shape_joint_array_lambda, length_joint_array_lambda; done.
Qed.

(** ** Single precision at the accessors *)

Lemma cast_float_representable (x : spec_float) :
  Binary32.representable (cast_float x) = true.
Proof.
  destruct x as [s|s| |s m e]; try reflexivity.
  apply binary_round_valid. done.
Qed.

Lemma cast_float_exact (x : spec_float) :
  Binary32.representable x = true -> cast_float x = x.
Proof.
  destruct x as [s|s| |s m e]; try reflexivity.
  intros H. by apply binary_round_canonical.
Qed.

Lemma cast_float_idempotent (x : spec_float) :
  cast_float (cast_float x) = cast_float x.
Proof. apply cast_float_exact, cast_float_representable. Qed.

(** The cast loses the low bits of 0.1. *)
Lemma cast_float_tenth :
  Binary64.representable tenth = true
  /\ Binary32.representable tenth = false
  /\ cast_float tenth = tenth_f
  /\ same_number tenth_f tenth = false.
Proof. by vm_compute. Qed.

Lemma Forall_representable_joint_array (ptr : list spec_float) :
  Forall (fun y => Binary32.representable y = true) (buf (joint_array_lambda ptr)).
Proof.
  apply Forall_lookup_2. intros i y Hy.
  assert (Hi : (i < Z.to_nat NUMBER_OF_JOINTS)%nat).
  { apply lookup_lt_Some in Hy. by rewrite length_joint_array_lambda in Hy. }
  rewrite joint_array_lambda_lookup in Hy by done.
  injection Hy as <-. apply cast_float_representable.
Qed.

(** C9: on every state, each joint-indexed accessor returns single
    precision values: slot i of the returned array is the cast to float of
    the double the wrapper copied from the SDK at index i, so that every
    element is a number of the binary32 format; when the SDK hands out its
    7 doubles, the array is their element-wise cast. *)
Theorem joint_arrays_single_precision (self : LBRState) :
  Forall (fun '(sdk, get) =>
            Forall (fun y => Binary32.representable y = true) (buf (get self))
            /\ (forall i : nat, (i < 7)%nat ->
                  buf (get self) !! i
                  = Some (cast_float
                      (memcpy (uninitialized NUMBER_OF_JOINTS) (sdk self)
                              NUMBER_OF_JOINTS !!! i)))
            /\ ((7 <= length (sdk self))%nat ->
                  buf (get self) = cast_float <$> take 7 (sdk self)))
    joint_accessors.
Proof.
  unfold joint_accessors.
  repeat apply Forall_cons_2; try apply Forall_nil_2;
    (split_and!;
     [ apply Forall_representable_joint_array
     | intros i Hi; by apply joint_array_lambda_lookup
     | intros Hlen; by apply joint_array_lambda_fmap ]).
Qed.

Lemma joint_arrays_single_precision_witness :
  buf (LBRState.getMeasuredJointPosition commanding_state) !! 0%nat = Some tenth_f
  /\ buf (LBRState.getIpoJointPosition commanding_state) = replicate 7 tenth_f.
Proof.
  pose proof (joint_arrays_single_precision commanding_state) as H.
  unfold joint_accessors in H.
  apply Forall_cons_1 in H as [(_ & Hi & _) H].
  do 3 apply Forall_cons_1 in H as [_ H].
  apply Forall_cons_1 in H as [(_ & _ & Hall) _].
  split.
  - rewrite (Hi 0%nat) by lia. reflexivity.
  - rewrite Hall by (cbn; lia). reflexivity.
Defined.

(** ** More on rounding to a binary format *)

(** [iter_pos] and [Pos.iter] are the same iteration. *)
Lemma iter_pos_Pos_iter {A : Type} (f : A -> A) (p : positive) (x : A) :
  SpecFloat.iter_pos f p x = Pos.iter f x p.
Proof.
  revert x. induction p as [p IH|p IH|]; intros x; cbn.
  - rewrite !IH. by rewrite !Pos.iter_swap.
  - by rewrite !IH.
  - done.
Qed.

Lemma Pos_iter_xO_Z (m p : positive) :
  Zpos (Pos.iter xO m p) = Zpos m * 2 ^ Zpos p.
Proof.
  induction p as [|p IH] using Pos.peano_ind.
  - cbn. lia.
  - rewrite Pos.iter_succ, Pos2Z.inj_xO, IH, Pos2Z.inj_succ, Z.pow_succ_r by lia. lia.
Qed.

Lemma digits2_pos_iter_xO (m p : positive) :
  Zpos (digits2_pos (Pos.iter xO m p)) = Zpos (digits2_pos m) + Zpos p.
Proof.
  induction p as [|p IH] using Pos.peano_ind.
  - cbn. lia.
  - rewrite Pos.iter_succ. cbn [digits2_pos]. lia.
Qed.

(** Shifting out zeros is exact: no round bit, no sticky bit. *)
Lemma shr_exact (m p : positive) :
  SpecFloat.iter_pos shr_1 p
    {| shr_m := Zpos (Pos.iter xO m p); shr_r := false; shr_s := false |}
  = {| shr_m := Zpos m; shr_r := false; shr_s := false |}.
Proof.
  rewrite iter_pos_Pos_iter.
  induction p as [|p IH] using Pos.peano_ind.
  - reflexivity.
  - rewrite (Pos.iter_succ p _ xO), (Pos.iter_succ_r p _ shr_1). cbn [shr_1 orb]. exact IH.
Qed.

Section Rounding.
Variables prec emax : Z.
Hypothesis Hprec : 0 < prec.

(** A number that has a canonical form in the format is rounded to that
    form, whatever the form it is given in. *)
Lemma binary_round_exact (s : bool) (m m' : positive) (e e' : Z) :
  bounded prec emax m' e' = true ->
  Zpos m * 2 ^ (e - Z.min e e') = Zpos m' * 2 ^ (e' - Z.min e e') ->
  binary_round prec emax s m e = S754_finite s m' e'.
Proof.
  intros Hb Hval.
  pose proof Hb as Hb'. unfold bounded, canonical_mantissa in Hb'.
  apply andb_prop in Hb' as [Hc Hle]. apply Z.eqb_eq in Hc.
  destruct (Z.le_gt_cases e e') as [Hee|Hee].
  - (* the given form is finer: shift right by e' - e *)
    replace (Z.min e e') with e in Hval by lia.
    rewrite Z.sub_diag, Z.mul_1_r in Hval.
    destruct (e' - e) as [|p|p] eqn:Hp; try lia.
    + assert (e = e') by lia. subst e'.
      rewrite Z.mul_1_r in Hval. injection Hval as ->.
      by apply binary_round_canonical.
    + assert (Hm : m = Pos.iter xO m' p).
      { apply Pos2Z.inj. by rewrite Pos_iter_xO_Z. }
      subst m.
      assert (HD : Zpos (digits2_pos (Pos.iter xO m' p)) + e
                   = Zpos (digits2_pos m') + e')
        by (rewrite digits2_pos_iter_xO; lia).
      unfold binary_round, shl_align. rewrite HD, Hc, Hp.
      unfold binary_round_aux, shr_fexp.
      change (Zdigits2 (Z.pos ?x)) with (Zpos (digits2_pos x)).
      rewrite HD, Hc, Hp. cbn [shr shr_record_of_loc].
      rewrite shr_exact. cbn [shr_m loc_of_shr_record round_nearest_even].
      change (Zdigits2 (Z.pos m')) with (Zpos (digits2_pos m')).
      replace (e + Z.pos p) with e' by lia.
      rewrite Hc, Z.sub_diag. cbn [shr shr_m shr_record_of_loc]. by rewrite Hle.
  - (* the given form is coarser: shl_align scales it *)
    replace (Z.min e e') with e' in Hval by lia.
    rewrite Z.sub_diag, Z.mul_1_r in Hval.
    destruct (e - e') as [|p|p] eqn:Hp; try lia.
    assert (Hm : m' = Pos.iter xO m p).
    { apply Pos2Z.inj. by rewrite Pos_iter_xO_Z. }
    assert (HD : Zpos (digits2_pos m) + e = Zpos (digits2_pos m') + e')
      by (rewrite Hm, digits2_pos_iter_xO; lia).
    unfold binary_round, shl_align. rewrite HD, Hc.
    replace (e' - e) with (Zneg p) by lia.
    rewrite <- Hm.
    change (binary_round_aux prec emax s (Z.pos m') e' loc_Exact)
      with (let '(mz, ez) := (m', e') in binary_round_aux prec emax s (Z.pos mz) ez loc_Exact).
    pose proof (binary_round_canonical prec emax s m' e' Hb) as Hcan.
    unfold binary_round, shl_align in Hcan. rewrite Hc, Z.sub_diag in Hcan.
    exact Hcan.
Qed.

Lemma Zdigits2_pos (m : Z) : 0 < m -> 1 <= Zdigits2 m.
Proof. destruct m; cbn; lia. Qed.

(** The round bit after a shift by [p] is bit [p - 1] of the mantissa. *)
Lemma shr_r_iter (p : positive) (mrs : shr_record) :
  0 <= shr_m mrs ->
  shr_r (SpecFloat.iter_pos shr_1 p mrs) = Z.testbit (shr_m mrs) (Zpos p - 1).
Proof.
  intros Hm. rewrite iter_pos_Pos_iter.
  induction p as [|p IH] using Pos.peano_ind.
  - cbn [Pos.iter]. destruct mrs as [[|[q|q|]|q] r s]; cbn in *; try done; lia.
  - rewrite Pos.iter_succ.
    pose proof (iter_pos_shr_1_m p mrs Hm) as Hshift.
    rewrite iter_pos_Pos_iter in Hshift.
    assert (Hnn : 0 <= shr_m (Pos.iter shr_1 mrs p))
      by (rewrite Hshift; by apply Z.shiftr_nonneg).
    replace (Z.pos (Pos.succ p) - 1) with (0 + Zpos p) by lia.
    rewrite <- Z.shiftr_spec by lia. rewrite <- Hshift.
    destruct (Pos.iter shr_1 mrs p) as [[|[q|q|]|q] r s]; cbn in *; try done; lia.
Qed.

(** What [binary_round_aux] computes from a mantissa that is fine enough:
    the mantissa shifted down to the exponent of the format, rounded, and
    renormalised by at most a further shift. *)
Lemma binary_round_aux_shape (s : bool) (m : positive) (e : Z) (l : location) :
  e <= fexp prec emax (Zpos (digits2_pos m) + e) ->
  exists (mrs1 : shr_record) (m3 e2 : Z),
    (shr (shr_record_of_loc (Zpos m) l) e
         (fexp prec emax (Zpos (digits2_pos m) + e) - e)).1 = mrs1
    /\ shr_m mrs1
        = Z.shiftr (Zpos m) (fexp prec emax (Zpos (digits2_pos m) + e) - e)
    /\ fexp prec emax (Zpos (digits2_pos m) + e) <= e2
    /\ 0 <= m3
    /\ (0 < round_nearest_even (shr_m mrs1) (loc_of_shr_record mrs1) <-> 0 < m3)
    /\ binary_round_aux prec emax s (Zpos m) e l
        = match m3 with
          | Z0 => S754_zero s
          | Zpos p => if e2 <=? emax - prec then S754_finite s p e2 else S754_infinity s
          | Zneg _ => S754_nan
          end.
Proof.
  intros He. unfold binary_round_aux, shr_fexp.
  change (Zdigits2 (Z.pos m)) with (Zpos (digits2_pos m)).
  remember (fexp prec emax (Zpos (digits2_pos m) + e)) as E eqn:HE.
  destruct (shr (shr_record_of_loc (Z.pos m) l) e (E - e)) as [mrs1 e1] eqn:H1.
  pose proof (shr_spec (shr_record_of_loc (Z.pos m) l) e (E - e)) as Hs1.
  rewrite H1, shr_m_of_loc in Hs1. cbn [fst snd] in Hs1.
  destruct Hs1 as [Hm1 He1]; [lia|].
  replace (Z.max 0 (E - e)) with (E - e) in * by lia.
  assert (He1' : e1 = E) by lia. clear He1. subst e1.
  assert (Hm1nn : 0 <= shr_m mrs1) by (rewrite Hm1; apply Z.shiftr_nonneg; lia).
  pose proof (round_nearest_even_cases (shr_m mrs1) (loc_of_shr_record mrs1)) as Hm2.
  remember (round_nearest_even (shr_m mrs1) (loc_of_shr_record mrs1)) as m2 eqn:Hm2def.
  destruct (shr (shr_record_of_loc m2 loc_Exact) E (fexp prec emax (Zdigits2 m2 + E) - E))
    as [mrs2 e2] eqn:H2.
  pose proof (shr_spec (shr_record_of_loc m2 loc_Exact) E
                (fexp prec emax (Zdigits2 m2 + E) - E)) as Hs2.
  rewrite H2, shr_m_of_loc in Hs2. cbn [fst snd] in Hs2.
  destruct Hs2 as [Hm3 He2]; [lia|].
  exists mrs1, (shr_m mrs2), e2. cbn [fst]. rewrite <- Hm2def.
  split_and!; try done.
  - lia.
  - rewrite Hm3. apply Z.shiftr_nonneg. lia.
  - rewrite Hm3. split.
    + intros Hpos.
      pose proof (Zdigits2_bounds m2 Hpos) as [Hlo Hhi].
      pose proof (Zdigits2_pos m2 Hpos) as Hd.
      assert (Hemin : emin prec emax <= E) by (rewrite HE; unfold fexp; lia).
      set (k := Z.max 0 (fexp prec emax (Zdigits2 m2 + E) - E)).
      assert (Hk : 0 <= k <= Zdigits2 m2 - 1) by (unfold k, fexp; lia).
      rewrite Z.shiftr_div_pow2 by lia.
      assert (2 ^ k <= 2 ^ (Zdigits2 m2 - 1)) by (apply Z.pow_le_mono_r; lia).
      assert (0 < 2 ^ k) by (apply Z.pow_pos_nonneg; lia).
      apply Z.div_str_pos. lia.
    + intros Hpos. destruct (Z.lt_trichotomy m2 0) as [|[->|]]; [lia| |done].
      rewrite Z.shiftr_0_l in Hpos. lia.
Qed.

(** Rounding keeps the sign and never yields a NaN. *)
Lemma binary_round_class (s : bool) (m : positive) (e : Z) :
  match binary_round prec emax s m e with
  | S754_zero s' | S754_infinity s' | S754_finite s' _ _ => s' = s
  | S754_nan => False
  end.
Proof.
  unfold binary_round.
  pose proof (shl_align_fexp prec emax m e) as H.
  destruct (shl_align m e (fexp prec emax (Z.pos (digits2_pos m) + e))) as [mz ez].
  destruct (binary_round_aux_shape s mz ez loc_Exact H)
    as (mrs1 & m3 & e2 & _ & _ & _ & Hnn & _ & ->).
  destruct m3 as [|p|p]; [done| |lia].
  by destruct (e2 <=? emax - prec).
Qed.

(** Overflow: a number of magnitude 2^emax or more rounds to infinity. *)
Lemma binary_round_overflow (s : bool) (m : positive) (e : Z) :
  emin prec emax <= emax ->
  emax < Zpos (digits2_pos m) + e ->
  binary_round prec emax s m e = S754_infinity s.
Proof.
  intros Hemin HD. unfold binary_round.
  pose proof (shl_align_fexp prec emax m e) as H.
  assert (HDz : let '(mz, ez) := shl_align m e (fexp prec emax (Z.pos (digits2_pos m) + e)) in
                Zpos (digits2_pos mz) + ez = Zpos (digits2_pos m) + e).
  { unfold shl_align.
    destruct (fexp prec emax (Z.pos (digits2_pos m) + e) - e) as [|d|d] eqn:Hd; try done.
    rewrite digits2_pos_iter_xO. lia. }
  destruct (shl_align m e (fexp prec emax (Z.pos (digits2_pos m) + e))) as [mz ez].
  rewrite <- HDz in HD. clear HDz.
  destruct (binary_round_aux_shape s mz ez loc_Exact H)
    as (mrs1 & m3 & e2 & _ & Hm1 & He2 & Hnn & Hpos & ->).
  pose proof (digits2_pos_bounds mz) as Hb.
  unfold fexp in *.
  assert (Hn : 0 <= Z.max (Z.pos (digits2_pos mz) + ez - prec) (emin prec emax) - ez
               < Zpos (digits2_pos mz)) by lia.
  pose proof (shiftr_bounds (Zpos mz) (Zpos (digits2_pos mz)) _ (proj1 Hn) (proj2 Hn) Hb)
    as [Hlo _].
  rewrite <- Hm1 in Hlo.
  assert (0 < 2 ^ (Z.pos (digits2_pos mz)
                   - (Z.max (Z.pos (digits2_pos mz) + ez - prec) (emin prec emax) - ez) - 1))
    by (apply Z.pow_pos_nonneg; lia).
  assert (Hm2 : 0 < round_nearest_even (shr_m mrs1) (loc_of_shr_record mrs1)).
  { destruct (round_nearest_even_cases (shr_m mrs1) (loc_of_shr_record mrs1)) as [->| ->]; lia. }
  apply Hpos in Hm2.
  destruct m3 as [|p|p]; try lia.
  destruct (Z.leb_spec e2 (emax - prec)); [lia|done].
Qed.

(** Underflow: a number below half the least number of the format rounds
    to zero. *)
Lemma binary_round_underflow (s : bool) (m : positive) (e : Z) :
  Zpos (digits2_pos m) + e < emin prec emax ->
  binary_round prec emax s m e = S754_zero s.
Proof.
  intros HD. unfold binary_round.
  pose proof (shl_align_fexp prec emax m e) as H.
  assert (Hal : shl_align m e (fexp prec emax (Z.pos (digits2_pos m) + e)) = (m, e)).
  { unfold shl_align.
    destruct (fexp prec emax (Z.pos (digits2_pos m) + e) - e) as [|d|d] eqn:Hd; try done.
    unfold fexp in Hd. lia. }
  rewrite Hal in *.
  destruct (binary_round_aux_shape s m e loc_Exact H)
    as (mrs1 & m3 & e2 & Hshr & Hm1 & He2 & Hnn & Hpos & ->).
  pose proof (digits2_pos_bounds m) as Hb.
  assert (HE : fexp prec emax (Z.pos (digits2_pos m) + e) = emin prec emax)
    by (unfold fexp; lia).
  rewrite HE in *.
  destruct (emin prec emax - e) as [|n|n] eqn:Hn; try lia.
  assert (Hz : shr_m mrs1 = 0).
  { rewrite Hm1. apply shiftr_small with (Zpos (digits2_pos m)); lia. }
  assert (Hr : shr_r mrs1 = false).
  { rewrite <- Hshr. cbn [shr fst]. rewrite shr_r_iter by (by rewrite shr_m_of_loc).
    rewrite shr_m_of_loc.
    apply Z.bits_above_log2; [lia|].
    apply Z.log2_lt_pow2; [lia|].
    assert (2 ^ Zpos (digits2_pos m) <= 2 ^ (Z.pos n - 1)) by (apply Z.pow_le_mono_r; lia).
    lia. }
  assert (Hm2 : round_nearest_even (shr_m mrs1) (loc_of_shr_record mrs1) = 0).
  { destruct mrs1 as [m1 r1 s1]. cbn in Hz, Hr. subst. by destruct s1. }
  rewrite Hm2 in Hpos.
  destruct m3 as [|p|p]; [done| |lia].
  assert (0 < Z.pos p) by lia. apply Hpos in H0. lia.
Qed.
End Rounding.

(** ** The cast at the accessors *)

Lemma cast_float_class (x : spec_float) :
  match x, cast_float x with
  | S754_nan, y => y = S754_nan
  | S754_zero s, y => y = S754_zero s
  | S754_infinity s, y => y = S754_infinity s
  | S754_finite s _ _, S754_zero s' => s' = s
  | S754_finite s _ _, S754_infinity s' => s' = s
  | S754_finite s _ _, S754_finite s' _ _ => s' = s
  | S754_finite _ _ _, S754_nan => False
  end.
Proof.
  destruct x as [s|s| |s m e]; try reflexivity.
  cbn [cast_float].
  pose proof (binary_round_class Binary32.prec Binary32.emax ltac:(done) s m e) as H.
  by destruct (binary_round Binary32.prec Binary32.emax s m e).
Qed.

Lemma cast_float_overflow (s : bool) (m : positive) (e : Z) :
  128 < magnitude m e ->
  cast_float (S754_finite s m e) = S754_infinity s.
Proof. intros H. apply binary_round_overflow; done. Qed.

Lemma cast_float_underflow (s : bool) (m : positive) (e : Z) :
  magnitude m e < -149 ->
  cast_float (S754_finite s m e) = S754_zero s.
Proof. intros H. apply binary_round_underflow; done. Qed.

Lemma cast_float_same_number (s : bool) (m m' : positive) (e e' : Z) :
  Binary32.representable (S754_finite s m' e') = true ->
  same_number (S754_finite s m e) (S754_finite s m' e') = true ->
  cast_float (S754_finite s m e) = S754_finite s m' e'.
Proof.
  intros Hb Hsame. cbn [same_number] in Hsame.
  apply andb_prop in Hsame as [_ Hv]. apply Z.eqb_eq in Hv.
  by apply binary_round_exact.
Qed.

(** ** Reading back what was commanded *)

Lemma joint_array_lambda_eta (ptr : list spec_float) :
  joint_array_lambda ptr
  = {| shape := [NUMBER_OF_JOINTS]; buf := buf (joint_array_lambda ptr) |}.
Proof. reflexivity. Qed.

Import StateCodec.

Lemma same_number_sym (x y : spec_float) : same_number x y = same_number y x.
Proof.
  destruct x as [s|s| |s m e], y as [s'|s'| |s' m' e']; cbn [same_number]; try done.
  - by destruct s, s'.
  - rewrite (Z.min_comm e' e), (Z.eqb_sym (Z.pos m' * _)).
    by destruct s, s'.
Qed.

(** Reading a number through the cast reproduces it exactly when it is a
    number of the binary32 format. *)
Lemma cast_float_reproduces (x : spec_float) :
  same_number (cast_float x) x = true <-> float_valued x.
Proof.
  split.
  - intros H. exists (cast_float x). split; [apply cast_float_representable|].
    by rewrite same_number_sym.
  - intros (y & Hrep & Hsame).
    destruct x as [s|s| |s m e], y as [s'|s'| |s' m' e']; try done.
    + cbn. by destruct s.
    + pose proof Hsame as Hs. cbn [same_number] in Hs.
      apply andb_prop in Hs as [Hs _]. apply Bool.eqb_prop in Hs. subst s'.
      rewrite (cast_float_same_number s m m' e e' Hrep Hsame).
      by rewrite same_number_sym.
Qed.

(** The double 1.0 is a number of the binary32 format; the double
    nearest to 0.1 is not. *)
Lemma one_float_valued : float_valued EdgeSamples.one.
Proof. exists EdgeSamples.one_f. by split. Qed.

Lemma tenth_not_float_valued : ~ float_valued Samples.tenth.
Proof. rewrite <- cast_float_reproduces. by vm_compute. Qed.

(** *** The codec *)















(** *** Through the accessors *)







(** ** The session state machine *)

Import Core.

Lemma adjacent_pairs_cons {A : Type} (a b : A) (l : list A) :
  adjacent_pairs (a :: b :: l) = (a, b) :: adjacent_pairs (b :: l).
Proof. reflexivity. Qed.

Lemma differing_pairs_same (s : ESessionState) (l : list ESessionState) :
  differing_pairs (s :: s :: l) = differing_pairs (s :: l).
Proof.
  unfold differing_pairs. rewrite adjacent_pairs_cons.
  rewrite filter_cons_False; [done|]. cbn. intros H. by apply H.
Qed.

Lemma differing_pairs_differ (a b : ESessionState) (l : list ESessionState) :
  a <> b -> differing_pairs (a :: b :: l) = (a, b) :: differing_pairs (b :: l).
Proof.
  intros Hab. unfold differing_pairs. rewrite adjacent_pairs_cons.
  by rewrite filter_cons_True.
Qed.

(** One call of [advance]: the machine holds the decoded state afterwards,
    the callback is the one of the state held, and a notification fires
    exactly when the state changed. *)
Lemma advance_spec (m : SessionStateMachine) (s : ESessionState) :
  current (advance m s).1.1 = s
  /\ callback (advance m s).1.2 = callbackFor s
  /\ changed (advance m s).1.2 = bool_decide (current m <> s)
  /\ (advance m s).2 = (if decide (current m = s) then [] else [(current m, s)]).
Proof.
  unfold advance.
  destruct (decide (s = current m)) as [->|Hne]; cbn.
  - rewrite bool_decide_eq_false_2 by (intros H; by apply H).
    by rewrite decide_True.
  - rewrite bool_decide_eq_true_2 by congruence.
    by rewrite decide_False by congruence.
Qed.

Lemma feed_events (l : list ESessionState) (m : SessionStateMachine) :
  (feed m l).1 = differing_pairs (current m :: l).
Proof.
  revert m. induction l as [|s l IH]; intros m; [done|].
  cbn [feed].
  pose proof (advance_spec m s) as (Hcur & _ & _ & Hfired).
  destruct (advance m s) as [[m' r] fired]. cbn [fst snd] in Hcur, Hfired.
  specialize (IH m'). destruct (feed m' l) as [events callbacks].
  cbn [fst snd] in *. rewrite IH, Hcur, Hfired.
  destruct (decide (current m = s)) as [->|Hne].
  - by rewrite differing_pairs_same.
  - by rewrite differing_pairs_differ.
Qed.

Lemma feed_callbacks (l : list ESessionState) (m : SessionStateMachine) :
  (feed m l).2 = callbackFor <$> l.
Proof.
  revert m. induction l as [|s l IH]; intros m; [done|].
  cbn [feed].
  pose proof (advance_spec m s) as (_ & Hcb & _).
  destruct (advance m s) as [[m' r] fired]. cbn [fst snd] in Hcb.
  specialize (IH m'). destruct (feed m' l) as [events callbacks].
  cbn [fst snd fmap list_fmap] in *. by rewrite IH, Hcb.
Qed.

(** The scenario of section 8. *)
Lemma feed_scenario :
  feed initial [IDLE; MONITORING_WAIT; MONITORING_READY; COMMANDING_WAIT; COMMANDING_ACTIVE]
  = ([(IDLE, MONITORING_WAIT); (MONITORING_WAIT, MONITORING_READY);
      (MONITORING_READY, COMMANDING_WAIT); (COMMANDING_WAIT, COMMANDING_ACTIVE)],
     [NoCallback; Monitor; Monitor; WaitForCommand; Command]).
Proof. reflexivity. Qed.

(** C1 as stated fails on a sequence that does not start with the state
    the machine holds: fed the one-element sequence MONITORING_WAIT, a
    fresh machine fires onStateChange(IDLE, MONITORING_WAIT), while the
    sequence has no adjacent pair at all. *)
Lemma feed_first_transition :
  (feed initial [MONITORING_WAIT]).1 = [(IDLE, MONITORING_WAIT)]
  /\ differing_pairs [MONITORING_WAIT] = []
  /\ (feed initial [MONITORING_WAIT]).1 <> differing_pairs [MONITORING_WAIT].
Proof. by split_and!. Qed.

(** C1, amended: for every machine and every sequence of decoded session
    states fed to advance, the onStateChange events fired are exactly the
    adjacent differing pairs, in order, of the sequence with the state
    held before the first call put in front (IDLE for a fresh machine);
    for a sequence that starts with the held state these are the adjacent
    differing pairs of the sequence itself.  The callback selected at each
    call is the one the fixed mapping gives for the state then held:
    monitor for MONITORING_WAIT and MONITORING_READY, waitForCommand for
    COMMANDING_WAIT, command for COMMANDING_ACTIVE, none for IDLE. *)
Theorem feed_transitions (m : SessionStateMachine) (l : list ESessionState) :
  (feed m l).1 = differing_pairs (current m :: l)
  /\ (feed initial l).1 = differing_pairs (IDLE :: l)
  /\ (feed m (current m :: l)).1 = differing_pairs (current m :: l)
  /\ (feed m l).2 = callbackFor <$> l
  /\ (forall s : ESessionState,
        current (advance m s).1.1 = s
        /\ callback (advance m s).1.2 = callbackFor (current (advance m s).1.1))
  /\ callbackFor MONITORING_WAIT = Monitor
  /\ callbackFor MONITORING_READY = Monitor
  /\ callbackFor COMMANDING_WAIT = WaitForCommand
  /\ callbackFor COMMANDING_ACTIVE = Command
  /\ callbackFor IDLE = NoCallback.
Proof.
  split_and!; try done.
  - apply feed_events.
  - apply feed_events.
  - rewrite feed_events. apply differing_pairs_same.
  - apply feed_callbacks.
  - intros s. pose proof (advance_spec m s) as (Hcur & Hcb & _).
    by rewrite Hcb, Hcur.
Qed.

(** ** One cycle through [step] *)



(** What a cycle leaves of the application when something went wrong in
    it, and when nothing did. *)
Lemma validation_failed_fields {C : Type} `{!LBRClient C}
    (app : ClientApplication C) (why : Diagnostic) :
  validationErrors (validation_failed app why) = S (validationErrors app)
  /\ lastError (validation_failed app why) = Some why
  /\ transmitted (validation_failed app why) = transmitted app ++ [fallback app]
  /\ machine (validation_failed app why) = machine app
  /\ missedCycles (validation_failed app why) = missedCycles app
  /\ decodeErrors (validation_failed app why) = decodeErrors app.
Proof. by split_and!. Qed.




(* ===================================================================== *)
(** * Part III: further properties of the bindings                        *)
(* ===================================================================== *)

Import EdgeSamples.

(** ** The cast at the accessors, slot by slot *)

(** Every array accessor is the shared lambda on its SDK accessor. *)
Lemma Forall_array_accessors
    (P : (LBRState -> list spec_float) -> (LBRState -> array_t) -> Prop) :
  (forall sdk get,
     (forall self, get self = joint_array_lambda (sdk self)) -> P sdk get) ->
  Forall (fun '(sdk, get) => P sdk get) array_accessors.
Proof.
  intros H. unfold array_accessors, joint_accessors. cbn [app].
  repeat apply Forall_cons_2; try apply Forall_nil_2; by apply H.
Qed.

(** The slot of a double the SDK holds is the cast of that double. *)
Lemma joint_array_lambda_slot (ptr : list spec_float) (i : nat) (x : spec_float) :
  (i < 7)%nat ->
  ptr !! i = Some x ->
  buf (joint_array_lambda ptr) !! i = Some (cast_float x).
Proof.
  intros Hi Hx. rewrite joint_array_lambda_lookup by done.
  do 2 f_equal. unfold memcpy.
  apply list_lookup_total_correct.
  rewrite lookup_app_l.
  - by rewrite lookup_take_lt.
  - rewrite length_take. apply lookup_lt_Some in Hx.
    change (Z.to_nat NUMBER_OF_JOINTS) with 7%nat. lia.
Qed.

(** X1: getMeasuredCartesianPose returns a one-dimensional array of
    NUMBER_OF_JOINTS = 7 single precision values whatever the state; when
    the SDK holds at least 7 doubles for the pose, these are the casts of
    the first 7, and what lies behind them is not read. *)
Theorem measured_cartesian_pose_array (self : LBRState) :
  shape (LBRState.getMeasuredCartesianPose self) = [NUMBER_OF_JOINTS]
  /\ length (buf (LBRState.getMeasuredCartesianPose self)) = 7%nat
  /\ Forall (fun y => Binary32.representable y = true)
       (buf (LBRState.getMeasuredCartesianPose self))
  /\ ((7 <= length (FRI.getMeasuredCartesianPose self))%nat ->
      buf (LBRState.getMeasuredCartesianPose self)
      = cast_float <$> take 7 (FRI.getMeasuredCartesianPose self)).
Proof.
  unfold LBRState.getMeasuredCartesianPose. split_and!.
  - apply shape_joint_array_lambda.
  - apply length_joint_array_lambda.
  - apply Forall_representable_joint_array.
  - intros Hlen. by apply joint_array_lambda_fmap.
Qed.

Lemma measured_cartesian_pose_array_witness :
  buf (LBRState.getMeasuredCartesianPose edge_state)
  = [one_f; one_f; one_f; one_f; S754_zero false; S754_zero false; S754_zero false].
Proof.
  destruct (measured_cartesian_pose_array edge_state) as (_ & _ & _ & H).
  rewrite H by (cbn; lia). reflexivity.
Defined.

(** X2: no slot of the returned array keeps what the local arrays held
    before the loop, and nothing behind the first 7 doubles of the SDK is
    read: whatever the two local arrays contain at first and whatever
    follows the 7 doubles, the lambda returns the casts of those 7. *)
Theorem accessor_reads_seven (junk junkf ptr : list spec_float) :
  length junkf = 7%nat ->
  (7 <= length ptr)%nat ->
  joint_array_lambda_from junk junkf ptr
  = {| shape := [NUMBER_OF_JOINTS]; buf := cast_float <$> take 7 ptr |}
  /\ joint_array_lambda ptr = joint_array_lambda_from junk junkf ptr
  /\ joint_array_lambda ptr = joint_array_lambda (take 7 ptr).
Proof.
  intros Hjf Hptr.
  assert (Hfrom : joint_array_lambda_from junk junkf ptr
                  = {| shape := [NUMBER_OF_JOINTS]; buf := cast_float <$> take 7 ptr |}).
  { unfold joint_array_lambda_from, py_array_1d. f_equal.
    change (Z.to_nat NUMBER_OF_JOINTS) with 7%nat.
    apply list_eq. intros i.
    destruct (decide (i < 7)%nat) as [Hi|Hi].
    - rewrite lookup_take_lt by done.
      rewrite parse_double_float_rounds, parse_rounds_lookup
        by (try done; rewrite Hjf; done).
      rewrite decide_True by done.
      rewrite list_lookup_fmap, lookup_take_lt by done.
      destruct (lookup_lt_is_Some_2 ptr i) as [x Hx]; [lia|].
      rewrite Hx. cbn. do 2 f_equal.
      apply list_lookup_total_correct. unfold memcpy.
      rewrite lookup_app_l by (rewrite length_take; change (Z.to_nat NUMBER_OF_JOINTS) with 7%nat; lia).
      by rewrite lookup_take_lt.
    - rewrite !lookup_ge_None_2; [done| |].
      + rewrite length_fmap, length_take. lia.
      + rewrite length_take, parse_double_float_rounds, length_parse_rounds. lia. }
  assert (Hlam : forall p : list spec_float, (7 <= length p)%nat ->
            joint_array_lambda p
            = {| shape := [NUMBER_OF_JOINTS]; buf := cast_float <$> take 7 p |}).
  { intros p Hp. rewrite joint_array_lambda_eta. f_equal.
    by apply joint_array_lambda_fmap. }
  split_and!; [done| |].
  - by rewrite Hfrom, Hlam.
  - rewrite !Hlam by (try done; rewrite length_take; lia).
    by rewrite take_take.
Qed.

Lemma accessor_reads_seven_witness :
  joint_array_lambda_from (replicate 7 tenth) (replicate 7 minus_huge)
    (FRI.getMeasuredCartesianPose edge_state)
  = {| shape := [7];
       buf := [one_f; one_f; one_f; one_f;
               S754_zero false; S754_zero false; S754_zero false] |}.
Proof.
  refine (proj1 (accessor_reads_seven (replicate 7 tenth) (replicate 7 minus_huge)
                   (FRI.getMeasuredCartesianPose edge_state) _ _)).
  - reflexivity.
  - cbn. lia.
Defined.

(** The lambda applied to its own output returns that output. *)
Lemma joint_array_lambda_idempotent (ptr : list spec_float) :
  joint_array_lambda (buf (joint_array_lambda ptr)) = joint_array_lambda ptr.
Proof.
  assert (Hb : buf (joint_array_lambda (buf (joint_array_lambda ptr)))
               = buf (joint_array_lambda ptr)).
  { rewrite joint_array_lambda_fmap by (by rewrite length_joint_array_lambda).
    rewrite take_ge by (by rewrite length_joint_array_lambda).
    rewrite <- (list_fmap_id (buf (joint_array_lambda ptr))) at 2.
    apply Forall_fmap_ext_1.
    eapply Forall_impl; [apply Forall_representable_joint_array|].
    intros y. apply cast_float_exact. }
  etrans; [apply joint_array_lambda_eta|].
  rewrite Hb. symmetry. apply joint_array_lambda_eta.
Qed.

(** A double that is, as a number, some float is cast to that number. *)
Lemma cast_float_of_same_number (x y : spec_float) :
  Binary32.representable y = true ->
  same_number x y = true ->
  same_number (cast_float x) y = true.
Proof.
  intros Hrep Hsame.
  destruct x as [s|s| |s m e], y as [s'|s'| |s' m' e']; try done.
  pose proof Hsame as Hs. cbn [same_number] in Hs.
  apply andb_prop in Hs as [Hs _]. apply Bool.eqb_prop in Hs. subst s'.
  rewrite (cast_float_same_number s m m' e e' Hrep Hsame).
  cbn [same_number]. rewrite Z.min_id, Z.eqb_refl. by destruct s.
Qed.

(** Slot by slot: doubles that are the numbers of a list of floats are
    cast to those numbers. *)
Lemma Forall2_cast_float (l k : list spec_float) :
  Forall (fun y => Binary32.representable y = true) k ->
  Forall2 (fun x y => same_number x y = true) l k ->
  Forall2 (fun x y => same_number x y = true) (cast_float <$> l) k.
Proof.
  intros Hrep Hlk. induction Hlk as [|x y l k Hxy Hlk IH]; [constructor|].
  apply Forall_cons_1 in Hrep as [Hy Hk]. cbn [fmap list_fmap].
  constructor; [by apply cast_float_of_same_number|by apply IH].
Qed.

(** X3: what an accessor returned is stable under the accessor: if the
    SDK array of a state holds doubles that are, number for number, the
    values some accessor call returned, reading that state through the
    accessor returns an array of the same shape holding the same numbers:
    a second cast changes nothing. *)
Theorem accessor_reread (self self' : LBRState) :
  Forall (fun '(sdk, get) =>
            Forall2 (fun held read => same_number held read = true)
              (sdk self') (buf (get self)) ->
            shape (get self') = shape (get self)
            /\ Forall2 (fun again read => same_number again read = true)
                 (buf (get self')) (buf (get self)))
    array_accessors.
Proof.
  apply Forall_array_accessors. intros sdk get Hget Hheld.
  rewrite (Hget self') , (Hget self) in *.
  split; [by rewrite !shape_joint_array_lambda|].
  assert (Hlen : length (sdk self') = 7%nat).
  { apply Forall2_length in Hheld. by rewrite length_joint_array_lambda in Hheld. }
  rewrite (joint_array_lambda_fmap (sdk self')) by (rewrite Hlen; done).
  rewrite take_ge by (rewrite Hlen; done).
  apply Forall2_cast_float; [apply Forall_representable_joint_array|done].
Qed.

Lemma accessor_reread_witness :
  Forall2 (fun again read => same_number again read = true)
    (buf (LBRState.getIpoJointPosition float_state))
    (buf (LBRState.getIpoJointPosition commanding_state)).
Proof.
  pose proof (accessor_reread commanding_state float_state) as H.
  unfold array_accessors, joint_accessors in H. cbn [app] in H.
  do 4 apply Forall_cons_1 in H as [_ H].
  apply Forall_cons_1 in H as [H _].
  apply H. repeat (constructor; [reflexivity|]). constructor.
Defined.

(** X4: a double whose value is a number of the binary32 format comes
    back as exactly that number: if slot i of the SDK array holds a finite
    double equal, as a number, to a binary32 number, the accessor returns
    that binary32 number in slot i. *)
Theorem accessor_exact (self : LBRState) :
  Forall (fun '(sdk, get) =>
            forall (i : nat) (s : bool) (m m' : positive) (e e' : Z),
              (i < 7)%nat ->
              sdk self !! i = Some (S754_finite s m e) ->
              Binary32.representable (S754_finite s m' e') = true ->
              same_number (S754_finite s m e) (S754_finite s m' e') = true ->
              buf (get self) !! i = Some (S754_finite s m' e'))
    array_accessors.
Proof.
  apply Forall_array_accessors. intros sdk get Hget i s m m' e e' Hi Hx Hrep Hsame.
  rewrite Hget, (joint_array_lambda_slot _ i _ Hi Hx).
  f_equal. by apply cast_float_same_number.
Qed.

Lemma accessor_exact_witness :
  buf (LBRState.getMeasuredTorque edge_state) !! 0%nat = Some one_f.
Proof.
  pose proof (accessor_exact edge_state) as H.
  unfold array_accessors, joint_accessors in H. cbn [app] in H.
  apply Forall_cons_1 in H as [_ H].
  apply Forall_cons_1 in H as [H _].
  apply (H 0%nat false 4503599627370496%positive 8388608%positive (-52) (-23));
    [lia | reflexivity | reflexivity | reflexivity].
Defined.

(** X5: the cast at the accessors keeps the class and the sign of what
    the SDK holds: a NaN comes back as NaN, a zero or an infinity as
    itself, and a finite double as a zero, a finite float or an infinity
    of the same sign, never as NaN. *)
Theorem accessor_class (self : LBRState) :
  Forall (fun '(sdk, get) =>
            forall (i : nat) (x : spec_float),
              (i < 7)%nat ->
              sdk self !! i = Some x ->
              exists y : spec_float,
                buf (get self) !! i = Some y
                /\ match x, y with
                   | S754_nan, _ => y = S754_nan
                   | S754_zero s, _ => y = S754_zero s
                   | S754_infinity s, _ => y = S754_infinity s
                   | S754_finite s _ _, S754_zero s' => s' = s
                   | S754_finite s _ _, S754_infinity s' => s' = s
                   | S754_finite s _ _, S754_finite s' _ _ => s' = s
                   | S754_finite _ _ _, S754_nan => False
                   end)
    array_accessors.
Proof.
  apply Forall_array_accessors. intros sdk get Hget i x Hi Hx.
  exists (cast_float x). split.
  - by rewrite Hget, (joint_array_lambda_slot _ i _ Hi Hx).
  - pose proof (cast_float_class x) as Hc. by destruct x.
Qed.

Lemma accessor_class_witness :
  buf (LBRState.getMeasuredTorque edge_state) !! 3%nat = Some S754_nan
  /\ buf (LBRState.getMeasuredTorque edge_state) !! 5%nat = Some (S754_zero true).
Proof.
  pose proof (accessor_class edge_state) as H.
  unfold array_accessors, joint_accessors in H. cbn [app] in H.
  apply Forall_cons_1 in H as [_ H].
  apply Forall_cons_1 in H as [H _].
  split.
  - destruct (H 3%nat S754_nan) as (y & Hy & ->); [lia | reflexivity | exact Hy].
  - destruct (H 5%nat (S754_zero true)) as (y & Hy & ->); [lia | reflexivity | exact Hy].
Defined.

(** X6: a finite double of magnitude 2^128 or more, which no float can
    hold, comes back from every accessor as the infinity of its sign. *)
Theorem accessor_overflow (self : LBRState) :
  Forall (fun '(sdk, get) =>
            forall (i : nat) (s : bool) (m : positive) (e : Z),
              (i < 7)%nat ->
              sdk self !! i = Some (S754_finite s m e) ->
              128 < magnitude m e ->
              buf (get self) !! i = Some (S754_infinity s))
    array_accessors.
Proof.
  apply Forall_array_accessors. intros sdk get Hget i s m e Hi Hx Hbig.
  rewrite Hget, (joint_array_lambda_slot _ i _ Hi Hx).
  f_equal. by apply cast_float_overflow.
Qed.

Lemma accessor_overflow_witness :
  buf (LBRState.getMeasuredTorque edge_state) !! 1%nat = Some (S754_infinity true).
Proof.
  pose proof (accessor_overflow edge_state) as H.
  unfold array_accessors, joint_accessors in H. cbn [app] in H.
  apply Forall_cons_1 in H as [_ H].
  apply Forall_cons_1 in H as [H _].
  apply (H 1%nat true 4503599627370496%positive 148);
    [lia | reflexivity | reflexivity].
Defined.

(** X7: a finite double of magnitude below 2^-150, less than half the
    least positive float, comes back from every accessor as the zero of
    its sign. *)
Theorem accessor_underflow (self : LBRState) :
  Forall (fun '(sdk, get) =>
            forall (i : nat) (s : bool) (m : positive) (e : Z),
              (i < 7)%nat ->
              sdk self !! i = Some (S754_finite s m e) ->
              magnitude m e < -149 ->
              buf (get self) !! i = Some (S754_zero s))
    array_accessors.
Proof.
  apply Forall_array_accessors. intros sdk get Hget i s m e Hi Hx Hsmall.
  rewrite Hget, (joint_array_lambda_slot _ i _ Hi Hx).
  f_equal. by apply cast_float_underflow.
Qed.

Lemma accessor_underflow_witness :
  buf (LBRState.getMeasuredTorque edge_state) !! 2%nat = Some (S754_zero false).
Proof.
  pose proof (accessor_underflow edge_state) as H.
  unfold array_accessors, joint_accessors in H. cbn [app] in H.
  apply Forall_cons_1 in H as [_ H].
  apply Forall_cons_1 in H as [H _].
  apply (H 2%nat false 4503599627370496%positive (-252));
    [lia | reflexivity | reflexivity].
Defined.

(** ** The mutators together *)

(** X8: no array passes both the wrench guard and a joint guard: what
    setWrench accepts, setJointPosition and setTorque reject, and what
    either of these accepts, setWrench rejects, whatever the commands
    they are called on; an array that is not one-dimensional is rejected
    by all three. *)
Theorem mutators_exclusive (self self' : LBRCommand) (values : array_t) :
  (is_Ok (LBRCommand.setWrench self values) ->
   raises (LBRCommand.setJointPosition self' values)
   /\ raises (LBRCommand.setTorque self' values))
  /\ (is_Ok (LBRCommand.setJointPosition self values)
      \/ is_Ok (LBRCommand.setTorque self values) ->
      raises (LBRCommand.setWrench self' values))
  /\ (ndim values <> 1 ->
      raises (LBRCommand.setJointPosition self values)
      /\ raises (LBRCommand.setWrench self values)
      /\ raises (LBRCommand.setTorque self values)).
Proof.
  rewrite !setJointPosition_cases, !setTorque_cases, !setWrench_cases.
  unfold NUMBER_OF_JOINTS.
  assert (Hnd : ndim values <> 1 -> forall n : Z, shape values <> [n]).
  { intros Hn n Hs. apply Hn. unfold ndim. by rewrite Hs. }
  split_and!.
  - intros H. repeat case_decide; cbn in *; try done; congruence.
  - intros H. repeat case_decide; cbn in *; try done; try congruence.
    by destruct H.
  - intros Hn. rewrite !decide_False by (by apply Hnd). done.
Qed.

Lemma mutators_exclusive_witness :
  raises (LBRCommand.setTorque empty_command six_zeros)
  /\ raises (LBRCommand.setWrench empty_command seven_zeros).
Proof.
  destruct (mutators_exclusive empty_command empty_command six_zeros) as (H6 & _ & _).
  destruct (mutators_exclusive empty_command empty_command seven_zeros) as (_ & H7 & _).
  split.
  - apply H6. exact I.
  - apply H7. left. exact I.
Defined.

(** X9: what an array accessor returns can be handed to the joint
    mutators as it is: for every state and command, setJointPosition and
    setTorque accept the returned array and pass its 7 values on to the
    SDK, while setWrench rejects it. *)
Theorem accessor_output_accepted (st : LBRState) (cmd : LBRCommand) :
  Forall (fun '(sdk, get) =>
            well_formed (get st)
            /\ LBRCommand.setJointPosition cmd (get st)
               = Ok (FRI.setJointPosition cmd (buf (get st)))
            /\ LBRCommand.setTorque cmd (get st)
               = Ok (FRI.setTorque cmd (buf (get st)))
            /\ LBRCommand.setWrench cmd (get st)
               = Throw (runtime_error "Input array must have shape (7,)!"))
    array_accessors.
Proof.
  apply Forall_array_accessors. intros sdk get Hget.
  rewrite setJointPosition_cases, setTorque_cases, setWrench_cases, Hget.
  rewrite shape_joint_array_lambda.
  unfold well_formed.
  rewrite shape_joint_array_lambda, length_joint_array_lambda.
  by split_and!.
Qed.

(** ** The names the module binds *)

Lemma dotless_append (a b : string) :
  dotless (a +:+ b) = dotless a && dotless b.
Proof.
  induction a as [|c a IH]; [done|].
  change (String c a +:+ b) with (String c (a +:+ b)).
  cbn [dotless]. rewrite IH. by rewrite andb_assoc.
Qed.

Lemma pretty_N_go_dotless (x : N) (s : string) :
  dotless s = true -> dotless (pretty_N_go x s) = true.
Proof.
  revert s. induction (N.lt_wf_0 x) as [x _ IH]. intros s Hs.
  assert (Hx : (x = 0 \/ 0 < x)%N) by lia.
  destruct Hx as [->|Hx]; [by rewrite pretty_N_go_0|].
  rewrite pretty_N_go_step by done. apply IH.
  - by apply N.div_lt.
  - cbn [dotless]. rewrite Hs, andb_true_r.
    unfold pretty_N_char. by repeat case_match.
Qed.

Lemma pretty_Z_dotless (z : Z) : dotless (pretty z) = true.
Proof.
  assert (HN : forall p : positive, dotless (pretty p) = true).
  { intros p. unfold pretty, pretty_positive, pretty, pretty_N.
    case_decide; [done|]. by apply pretty_N_go_dotless. }
  destruct z as [|p|p]; [done|apply HN|].
  unfold pretty, pretty_Z. rewrite dotless_append. by rewrite HN.
Qed.

(** Two dotless strings followed by a dot are told apart by that dot. *)
Lemma dotless_split (a a' b b' : string) :
  dotless a = true -> dotless a' = true ->
  a +:+ "." +:+ b = a' +:+ "." +:+ b' ->
  a = a' /\ b = b'.
Proof.
  revert a'. induction a as [|c a IH]; intros [|c' a'] Ha Ha' Heq;
    repeat match type of Heq with
           | context [String ?x ?y +:+ ?z] =>
               change (String x y +:+ z) with (String x (y +:+ z)) in Heq
           | context [EmptyString +:+ ?z] =>
               change (EmptyString +:+ z) with z in Heq
           end.
  - by injection Heq as ->.
  - injection Heq as <- _. cbn in Ha'. discriminate.
  - injection Heq as -> _. cbn in Ha. discriminate.
  - injection Heq as -> Heq.
    cbn [dotless] in Ha, Ha'.
    apply andb_prop in Ha as [_ Ha]. apply andb_prop in Ha' as [_ Ha'].
    destruct (IH a' Ha Ha' Heq) as [-> ->]. done.
Qed.

(** X10: the version string determines the version: two pairs of major
    and minor numbers give the same FRI_VERSION only when they are the
    same pair. *)
Theorem FRI_VERSION_inj (major minor major' minor' : Z) :
  Bindings.FRI_VERSION major minor = Bindings.FRI_VERSION major' minor'
  <-> major = major' /\ minor = minor'.
Proof.
  split; [|by intros [-> ->]].
  unfold Bindings.FRI_VERSION, to_string. intros Heq.
  apply dotless_split in Heq as [Hmajor Hminor]; try apply pretty_Z_dotless.
  split; by apply (inj pretty).
Qed.

(** Decide a membership or a distinctness over closed lists of names. *)
Ltac decide_names := apply (bool_decide_unpack _); by vm_compute.

(** X11: no name is bound twice, whatever the version: the attributes
    set on the module (version constants, enumerations, their exported
    values, classes) are pairwise distinct, and so are the methods of each
    class. *)
Theorem bound_names_distinct (major : Z) :
  NoDup (Bindings.module_attributes major)
  /\ NoDup (Bindings.LBRState_methods major)
  /\ NoDup Bindings.LBRCommand_methods
  /\ NoDup Bindings.LBRClient_methods
  /\ NoDup Bindings.ClientApplication_methods.
Proof.
  unfold Bindings.module_attributes, Bindings.LBRState_methods,
    Bindings.EClientCommandMode_values.
  destruct (Z.eqb_spec major 1) as [->|H1]; [split_and!; decide_names|].
  destruct (major =? 2); split_and!; decide_names.
Qed.

(** X12: what depends on the version, and what does not.  The command
    mode POSITION is exported exactly for major version 1, JOINT_POSITION
    and CARTESIAN_POSE exactly for major version 2, so that any other
    version exports no position mode; getCommandedJointPosition is bound
    exactly for version 1; each of the seven Cartesian and redundancy
    accessors, and the enumeration ERedundancyStrategy with its two
    values, exactly for version 2.  Every other accessor of LBRState, the
    three base command modes and all the mutators of LBRCommand,
    setJointPosition, setCartesianPose and setCartesianPoseAsMatrix among
    them, are bound in every version. *)
Theorem bindings_by_version (major : Z) :
  ("POSITION" ∈ Bindings.EClientCommandMode_values major <-> major = 1)
  /\ Forall (fun name => name ∈ Bindings.EClientCommandMode_values major <-> major = 2)
       [ "JOINT_POSITION"; "CARTESIAN_POSE" ]
  /\ Forall (fun name => name ∈ Bindings.EClientCommandMode_values major)
       [ "NO_COMMAND_MODE"; "WRENCH"; "TORQUE" ]
  /\ ("getCommandedJointPosition" ∈ Bindings.LBRState_methods major <-> major = 1)
  /\ Forall (fun name => name ∈ Bindings.LBRState_methods major <-> major = 2)
       [ "getMeasuredCartesianPose"; "getMeasuredCartesianPoseAsMatrix";
         "getIpoCartesianPose"; "getIpoCartesianPoseAsMatrix";
         "getMeasuredRedundancyValue"; "getIpoRedundancyValue";
         "getRedundancyStrategy" ]
  /\ Forall (fun name => name ∈ Bindings.LBRState_methods major)
       [ "__init__"; "NUMBER_OF_JOINTS"; "getSampleTime"; "getSessionState";
         "getConnectionQuality"; "getSafetyState"; "getOperationMode";
         "getDriveState"; "getClientCommandMode"; "getOverlayType";
         "getControlMode"; "getTimestampSec"; "getTimestampNanoSec";
         "getMeasuredJointPosition"; "getMeasuredTorque"; "getCommandedTorque";
         "getExternalTorque"; "getIpoJointPosition"; "getTrackingPerformance";
         "getBooleanIOValue"; "getDigitalIOValue"; "getAnalogIOValue" ]
  /\ Forall (fun name => name ∈ Bindings.module_attributes major <-> major = 2)
       [ "ERedundancyStrategy"; "E1"; "NO_STRATEGY" ]
  /\ Bindings.LBRCommand_methods
     = [ "__init__"; "setJointPosition"; "setWrench"; "setTorque";
         "setCartesianPose"; "setCartesianPoseAsMatrix"; "setBooleanIOValue";
         "setDigitalIOValue"; "setAnalogIOValue" ].
Proof.
  unfold Bindings.module_attributes, Bindings.LBRState_methods,
    Bindings.EClientCommandMode_values.
  destruct (Z.eqb_spec major 1) as [->|H1];
    [|destruct (Z.eqb_spec major 2) as [->|H2]];
    split_and!; try reflexivity;
    repeat (apply Forall_cons_2; [|]); try apply Forall_nil_2;
    try decide_names;
    (split; [intros Hin; try done; try lia;
             apply (bool_decide_pack _) in Hin; by vm_compute in Hin
            |intros Heq; try done; try lia; decide_names]).
Qed.
